(** * mishards: the search path of [ServiceHandler]

    A shallow embedding of [src/mishards/service_handler.py]: the result
    merger [_do_merge], the fan-out [_do_query] and the request handler
    [Search], with the properties the specification states about them.

    Distances are Python floats: they are modelled as [spec_float] (the
    IEEE 754 values of the Standard Library, NaN included) and compared
    with [SFltb], which is Python's [<] on floats.  The descriptor cache
    and the merger's [defaultdict] are [gmap]s. *)

From Stdlib Require Import ZArith List Bool Lia Sorting.Sorted Permutation.
From Stdlib Require Import Floats.SpecFloat.
From stdpp Require Import gmap strings list fin_maps sorting.

Local Open Scope Z_scope.

(** ** Python builtins used by the merger *)

Module Py.

(** [x < y] on floats; every comparison with NaN is [False]. *)
Definition float_lt (x y : spec_float) : bool := SFltb x y.

(** [x <= y] on floats. *)
Definition float_le (x y : spec_float) : bool := SFleb x y.

Definition is_nan (x : spec_float) : bool :=
  match x with S754_nan => true | _ => false end.

(** Insertion of [x] in front of the first element that is not smaller
    than it: [x] passes exactly the elements [y] with [y < x]. *)
Fixpoint insert {A} (lt : A -> A -> bool) (x : A) (s : list A) : list A :=
  match s with
  | [] => [x]
  | y :: s' => if lt y x then y :: insert lt x s' else x :: y :: s'
  end.

(** A stable insertion sort that compares with [lt] only.  When [lt]
    orders the elements totally up to ties its result is the only stable
    sorted arrangement, hence the one [list.sort] returns.  It is not
    [list.sort]'s algorithm (run detection, binary insertion, merges of
    runs): where [lt] is not such an order the two can arrange a list
    differently. *)
Fixpoint stable_sort {A} (lt : A -> A -> bool) (l : list A) : list A :=
  match l with
  | [] => []
  | x :: l' => insert lt x (stable_sort lt l')
  end.

(** [sorted(l, key=key, reverse=reverse)] with float keys.  Python
    guarantees that [sorted] is stable and that it compares keys with
    [<] only; with [reverse=True] the list is reversed, sorted and
    reversed again, so that equal keys keep their original order.
    When no key is NaN the keys are totally preordered and the stable
    arrangement is unique, whatever the sorting algorithm: there this
    definition is [sorted].  It is [sorted] also on a list in which no
    element compares below its predecessor (above, for [reverse]), which
    both leave as it is.  With a NaN key among keys out of order CPython
    can arrange the list differently; every statement below that names
    an arrangement assumes one of the two cases, and the others hold of
    any rearrangement. *)
Definition sorted {A} (key : A -> spec_float) (reverse : bool)
    (l : list A) : list A :=
  let lt a b := float_lt (key a) (key b) in
  if reverse then rev (stable_sort lt (rev l)) else stable_sort lt l.

(** [l[:k]]: the first [k] elements, or all but the last [-k] when [k]
    is negative. *)
Definition slice_to {A} (k : Z) (l : list A) : list A :=
  if 0 <=? k then firstn (Z.to_nat k) l
  else firstn (length l - Z.to_nat (- k)) l.

(** [enumerate(l)] from position [start]. *)
Fixpoint enumerate_from {A} (start : nat) (l : list A) : list (nat * A) :=
  match l with
  | [] => []
  | x :: l' => (start, x) :: enumerate_from (S start) l'
  end.

Definition enumerate {A} (l : list A) : list (nat * A) := enumerate_from 0 l.

End Py.

(** ** Messages *)

(** [status_pb2.Status]; [SUCCESS] is the enum value 0.  The status
    objects of the client library, which the handler reads through
    [code], [message] and [OK()], are modelled by the same record.  Line
    291 reads [error_code] and [reason] off the status the merger hands
    back: on a client status taken from a tuple-shaped partial that read
    fails, which is outside the model; no statement below is about the
    response of a search whose merge ended on a tuple. *)
Record Status := { error_code : Z; reason : string }.

Definition SUCCESS : Z := 0.

(** [Status.OK()]. *)
Definition OK (s : Status) : bool := error_code s =? SUCCESS.

(** A result row, [QueryResult]. *)
Record QueryResult := { id : Z; distance : spec_float }.

(** The top-K block of one query vector. *)
Record TopKQueryResult := { query_result_arrays : list QueryResult }.

(** [milvus_pb2.TopKQueryResultList]: what [Search] returns and what a
    backend returns for a sub-query issued with [lazy_=True]. *)
Record TopKQueryResultList :=
  { status : Status; topk_query_result : list TopKQueryResult }.

(** What a worker appends to [all_topk_results]: the backend's response
    object, or the [(status, payload)] tuple of a failed call. *)
Inductive Partial :=
| Response (r : TopKQueryResultList)
| Tuple (st : Status) (payload : list TopKQueryResult).

(** Modelled from the spec: [milvus.client.types.MetricType] is not in
    src/; the spec gives a table the metric kind [L2] or [IP]. *)
Inductive MetricType := L2 | IP.

Definition MetricType_eqb (a b : MetricType) : bool :=
  match a, b with L2, L2 | IP, IP => true | _, _ => false end.

Record TableSchema :=
  { schema_table_name : string; dimension : Z; index_file_size : Z;
    metric_type : MetricType }.

(** A time range of the request, and the date form the router takes. *)
Record Range := { start_value : string; end_value : string }.

(** The per-address sub-query parameters of a routing plan. *)
Record QueryParams := { table_id : string; file_ids : list string }.

(** The search request. *)
Record SearchParam :=
  { table_name : string;
    query_record_array : list (list spec_float);
    query_range_array : list Range;
    topk : Z;
    nprobe : Z }.

(** ** The result merger *)

Definition success_status : Status :=
  {| error_code := SUCCESS; reason := "Success" |}.

(** The body of the inner loop of [_do_merge] at one request position:
    extend the entry (a missing entry of the [defaultdict] is the empty
    list), then replace it by its sorted, truncated copy. *)
Definition merge_position (topk : Z) (reverse : bool)
    (request_results : gmap nat (list QueryResult))
    (entry : nat * TopKQueryResult) : gmap nat (list QueryResult) :=
  let '(request_pos, each_request_results) := entry in
  let extended :=
    default [] (request_results !! request_pos)
      ++ query_result_arrays each_request_results in
  let request_results := <[request_pos := extended]> request_results in
  <[request_pos :=
      Py.slice_to topk
        (Py.sorted distance reverse
           (default [] (request_results !! request_pos)))]> request_results.

(** The inner loop over [enumerate(files_collection.topk_query_result)]. *)
Definition merge_response (topk : Z) (reverse : bool)
    (request_results : gmap nat (list QueryResult))
    (files_collection : TopKQueryResultList) : gmap nat (list QueryResult) :=
  fold_left (merge_position topk reverse)
    (Py.enumerate (topk_query_result files_collection)) request_results.

(** The outer loop: the first tuple-shaped element ends the merge with
    its status ([inl]); otherwise the dictionary is returned ([inr]). *)
Fixpoint merge_loop (topk : Z) (reverse : bool)
    (files_n_topk_results : list Partial)
    (request_results : gmap nat (list QueryResult))
    : Status + gmap nat (list QueryResult) :=
  match files_n_topk_results with
  | [] => inr request_results
  | Tuple st _ :: _ => inl st
  | Response files_collection :: rest =>
      merge_loop topk reverse rest
        (merge_response topk reverse request_results files_collection)
  end.

(** [sorted(request_results.items())]: the items by increasing position
    (the positions are the keys, hence distinct). *)
Definition sorted_items (request_results : gmap nat (list QueryResult))
    : list (nat * list QueryResult) :=
  Py.stable_sort (fun a b => (a.1 <? b.1)%nat) (map_to_list request_results).

Definition _do_merge (files_n_topk_results : list Partial) (topk : Z)
    (reverse : bool) : Status * list TopKQueryResult :=
  let status := success_status in
  match files_n_topk_results with
  | [] => (status, [])
  | _ =>
      match merge_loop topk reverse files_n_topk_results ∅ with
      | inl st => (st, [])
      | inr request_results =>
          (status,
           map (fun result => {| query_result_arrays := result.2 |})
             (sorted_items request_results))
      end
  end.

(** ** The request handler *)

(** The exceptions [Search] raises.  [mishards.exceptions] is not in
    src/; each exception is kept with the argument it is raised on. *)
Inductive Exn :=
| InvalidArgumentError (nprobe : Z)
| InvalidTopKError (topk : Z)
| TableNotFoundError (table_name : string).

(** The error kinds of the specification. *)
Inductive ErrorKind :=
| InvalidArgument | NotFound | Unavailable | Canceled | Internal
| Unimplemented.

(** Modelled from the spec: the handlers that turn an exception of
    [mishards.exceptions] into a response status are not in src/.  The
    spec maps validation failures to [InvalidArgument] and an unknown
    table to [NotFound]. *)
Definition error_kind (e : Exn) : ErrorKind :=
  match e with
  | InvalidArgumentError _ | InvalidTopKError _ => InvalidArgument
  | TableNotFoundError _ => NotFound
  end.

(** The calls a request issues to its collaborators, in program order
    (the sub-queries in submission order). *)
Inductive Call :=
| describe_table_call (table_name : string)
| routing_call (table_id : string) (range_array : option (list (Z * Z)))
| search_vectors_in_files_call (addr : string) (query_params : QueryParams)
    (top_k nprobe : Z).

(** The router, the backend connections and the worker pool, as the
    handler sees them during one request.  [routing] gives the items of
    the plan in iteration order; [completion] is the order in which the
    workers append their answers to [all_topk_results]: any
    rearrangement of the answers. *)
Record Backend :=
  { range_to_date : Range -> Z * Z;
    routing : string -> option (list (Z * Z)) -> list (string * QueryParams);
    describe_table : string -> Status * TableSchema;
    search_vectors_in_files :
      string -> QueryParams -> list (list spec_float) -> Z -> Z -> Partial;
    completion : list Partial -> list Partial;
    completion_perm : forall l, Permutation (completion l) l }.

(** The handler: its descriptor cache [self.table_meta], and the log of
    the calls issued so far. *)
Record Handler :=
  { table_meta : gmap string TableSchema; calls : list Call }.

Definition log (c : list Call) (self : Handler) : Handler :=
  {| table_meta := table_meta self; calls := calls self ++ c |}.

Definition cache (table_name : string) (info : TableSchema) (self : Handler)
    : Handler :=
  {| table_meta := <[table_name := info]> (table_meta self);
     calls := calls self |}.

Inductive Outcome (A : Type) :=
| Returned (a : A)
| Raised (e : Exn).
Arguments Returned {A} a.
Arguments Raised {A} e.

Definition MAX_NPROBE : Z := 2048.
Definition MAX_TOPK : Z := 2048.

(** The answers of the sub-queries of a plan, in submission order. *)
Definition sub_queries (b : Backend) (plan : list (string * QueryParams))
    (vectors : list (list spec_float)) (topk nprobe : Z) : list Partial :=
  map (fun '(addr, params) =>
         search_vectors_in_files b addr params vectors topk nprobe) plan.

Definition _do_query (b : Backend) (self : Handler) (table_id : string)
    (table_meta : TableSchema) (vectors : list (list spec_float))
    (topk nprobe : Z) (range_array : list Range)
    : (Status * list TopKQueryResult) * Handler :=
  let range_array :=
    match range_array with
    | [] => None
    | _ => Some (map (range_to_date b) range_array)
    end in
  let self := log [routing_call table_id range_array] self in
  let plan := routing b table_id range_array in
  let self :=
    log (map (fun '(addr, params) =>
                search_vectors_in_files_call addr params topk nprobe) plan)
      self in
  let all_topk_results :=
    completion b (sub_queries b plan vectors topk nprobe) in
  let reverse := MetricType_eqb (metric_type table_meta) IP in
  (_do_merge all_topk_results topk reverse, self).

(** [Search], in the runs in which its collaborators return: the
    exceptions modelled are the three the handler raises itself.  What
    [Range(...)] at line 275, the router, or a worker (re-raised by
    [res.result()] at lines 131-132) may raise is outside the model. *)
Definition Search (b : Backend) (self : Handler) (request : SearchParam)
    : Outcome TopKQueryResultList * Handler :=
  let name := table_name request in
  let topk := topk request in
  let nprobe := nprobe request in
  if (nprobe >? MAX_NPROBE) || (nprobe <=? 0) then
    (Raised (InvalidArgumentError nprobe), self)
  else if (topk >? MAX_TOPK) || (topk <=? 0) then
    (Raised (InvalidTopKError topk), self)
  else
    let looked_up :=
      match table_meta self !! name with
      | Some meta => (Returned meta, self)
      | None =>
          let self := log [describe_table_call name] self in
          let '(st, info) := describe_table b name in
          if negb (OK st) then (Raised (TableNotFoundError name), self)
          else (Returned info, cache name info self)
      end in
    match looked_up with
    | (Raised e, self) => (Raised e, self)
    | (Returned meta, self) =>
        let '((st, results), self) :=
          _do_query b self name meta (query_record_array request) topk nprobe
            (query_range_array request) in
        (Returned
           {| status :=
                {| error_code := error_code st; reason := reason st |};
              topk_query_result := results |},
         self)
    end.

(** [milvus_pb2.TableSchema], the reply of [DescribeTable]; a field the
    handler leaves unset reads as the protobuf default (the empty string,
    0, and no metric). *)
Record TableSchemaReply :=
  { reply_status : Status;
    reply_table_name : string;
    reply_index_file_size : Z;
    reply_dimension : Z;
    reply_metric_type : option MetricType }.

(** [DescribeTable].  [Parser.parse_proto_TableName] is not in src/: its
    result, a status and the table name, is taken as the input. *)
Definition DescribeTable (b : Backend) (self : Handler)
    (parsed : Status * string) : TableSchemaReply * Handler :=
  let '(_status, _table_name) := parsed in
  if negb (OK _status) then
    ({| reply_status :=
          {| error_code := error_code _status; reason := reason _status |};
        reply_table_name := ""; reply_index_file_size := 0;
        reply_dimension := 0; reply_metric_type := None |}, self)
  else
    let self := log [describe_table_call _table_name] self in
    let '(_status, _table) := describe_table b _table_name in
    if OK _status then
      ({| reply_status :=
            {| error_code := error_code _status; reason := reason _status |};
          reply_table_name := _table_name;
          reply_index_file_size := index_file_size _table;
          reply_dimension := dimension _table;
          reply_metric_type := Some (metric_type _table) |}, self)
    else
      ({| reply_status :=
            {| error_code := error_code _status; reason := reason _status |};
          reply_table_name := _table_name; reply_index_file_size := 0;
          reply_dimension := 0; reply_metric_type := None |}, self).

(** The time ranges a request hands to the router: none when the request
    has none, else its ranges converted, in order. *)
Definition request_ranges (b : Backend) (request : SearchParam)
    : option (list (Z * Z)) :=
  match query_range_array request with
  | [] => None
  | ranges => Some (map (range_to_date b) ranges)
  end.

(** A call that reaches a backend or the router. *)
Definition is_describe (c : Call) : bool :=
  match c with describe_table_call _ => true | _ => false end.
Definition is_routing (c : Call) : bool :=
  match c with routing_call _ _ => true | _ => false end.
Definition is_sub_query (c : Call) : bool :=
  match c with search_vectors_in_files_call _ _ _ _ => true | _ => false end.

(** The plan of a request, the answers of its sub-queries in submission
    order, and the descriptor its merge reads the metric from. *)
Definition request_plan (b : Backend) (request : SearchParam)
    : list (string * QueryParams) :=
  routing b (table_name request)
    match query_range_array request with
    | [] => None
    | ranges => Some (map (range_to_date b) ranges)
    end.

Definition request_answers (b : Backend) (request : SearchParam)
    : list Partial :=
  sub_queries b (request_plan b request) (query_record_array request)
    (topk request) (nprobe request).

Definition request_meta (b : Backend) (self : Handler)
    (request : SearchParam) : TableSchema :=
  match table_meta self !! table_name request with
  | Some meta => meta
  | None => (describe_table b (table_name request)).2
  end.

(** ** The reference the specification merges against *)

Module Spec.

(** The rows of a partial's block at query position [p]; a tuple-shaped
    partial and a partial without position [p] have none. *)
Definition block_at (p : nat) (x : Partial) : option (list QueryResult) :=
  match x with
  | Response r => query_result_arrays <$> (topk_query_result r !! p)
  | Tuple _ _ => None
  end.

(** The blocks at position [p], in partial order. *)
Definition column (p : nat) (partials : list Partial)
    : list (list QueryResult) :=
  omap (block_at p) partials.

(** Concatenate, sort by distance, truncate to [K]. *)
Definition merged_block (K : Z) (reverse : bool)
    (blocks : list (list QueryResult)) : list QueryResult :=
  firstn (Z.to_nat K) (Py.sorted distance reverse (concat blocks)).

(** The order of a metric on distances: [<=] for L2 (ascending) and
    [>=] for IP (descending). *)
Definition in_order (reverse : bool) (a b : QueryResult) : Prop :=
  if reverse then Py.float_le (distance b) (distance a) = true
  else Py.float_le (distance a) (distance b) = true.

(** Rows tied with the distance [d]. *)
Definition tied (d : spec_float) (a : QueryResult) : bool :=
  negb (Py.float_lt (distance a) d) && negb (Py.float_lt d (distance a)).

(** [s] is [l] sorted by distance in the metric's order, ties kept in
    the order of [l]. *)
Definition stably_sorted (reverse : bool) (l s : list QueryResult) : Prop :=
  Permutation s l /\ StronglySorted (in_order reverse) s /\
  forall d, Py.is_nan d = false ->
            filter (fun a => tied d a = true) s
            = filter (fun a => tied d a = true) l.

(** [block] is the first [K] rows of [rows] sorted by distance in the
    metric's order, ties kept in the order of [rows]. *)
Definition sorted_topk (K : Z) (reverse : bool)
    (rows block : list QueryResult) : Prop :=
  exists s, stably_sorted reverse rows s /\ block = firstn (Z.to_nat K) s.

(** A partial is a response that holds [nq] blocks. *)
Definition holds (nq : nat) (x : Partial) : bool :=
  match x with
  | Response r => Nat.eqb (length (topk_query_result r)) nq
  | Tuple _ _ => false
  end.

Definition is_response (x : Partial) : bool :=
  match x with Response _ => true | Tuple _ _ => false end.

(** No row has a NaN distance. *)
Definition rows_nan_free (rows : list QueryResult) : bool :=
  forallb (fun row => negb (Py.is_nan (distance row))) rows.

(** No row of the partial has a NaN distance. *)
Definition nan_free (x : Partial) : bool :=
  match x with
  | Response r =>
      forallb (fun blk => rows_nan_free (query_result_arrays blk))
        (topk_query_result r)
  | Tuple _ _ => true
  end.

(** The number of blocks a partial holds, and the largest such number
    among the partials. *)
Definition blocks_of (x : Partial) : nat :=
  match x with
  | Response r => length (topk_query_result r)
  | Tuple _ _ => 0%nat
  end.

Definition max_blocks (partials : list Partial) : nat :=
  foldr Nat.max 0%nat (map blocks_of partials).

(** What the merger keeps at one position after one more block: the
    entry so far (none before the first block) extended, sorted and
    cut. *)
Definition step (K : Z) (reverse : bool) (entry : option (list QueryResult))
    (block : list QueryResult) : option (list QueryResult) :=
  Some (Py.slice_to K (Py.sorted distance reverse (default [] entry ++ block))).

(** The merger's block for the blocks of one position, folded in
    partial order. *)
Definition folded_block (K : Z) (reverse : bool)
    (blocks : list (list QueryResult)) : list QueryResult :=
  default [] (fold_left (step K reverse) blocks None).

(** The partial of shape (status=Error, empty). *)
Definition is_error (x : Partial) : bool :=
  match x with
  | Tuple st [] => negb (error_code st =? SUCCESS)
  | _ => false
  end.

(** The status of the first tuple-shaped partial, and of the first
    error partial, in list order. *)
Fixpoint first_tuple (partials : list Partial) : option Status :=
  match partials with
  | [] => None
  | Tuple st _ :: _ => Some st
  | Response _ :: rest => first_tuple rest
  end.

Fixpoint first_error (partials : list Partial) : option Status :=
  match partials with
  | [] => None
  | x :: rest =>
      if is_error x then
        match x with Tuple st _ => Some st | Response _ => None end
      else first_error rest
  end.

(** Some response-shaped partial holds fewer blocks than another. *)
Definition uneven (partials : list Partial) : bool :=
  existsb (fun x =>
    existsb (fun y =>
      is_response x && is_response y && (blocks_of x <? blocks_of y)%nat)
      partials) partials.

(** The rows with a NaN distance stand last. *)
Fixpoint nan_last (rows : list QueryResult) : bool :=
  match rows with
  | [] => true
  | row :: rest =>
      (if Py.is_nan (distance row)
       then forallb (fun x => Py.is_nan (distance x)) rest else true)
      && nan_last rest
  end.

(** [b], standing right after [a], compares as belonging before it:
    smaller for L2, larger for IP. *)
Definition out_of_order (reverse : bool) (a b : QueryResult) : bool :=
  if reverse then Py.float_lt (distance a) (distance b)
  else Py.float_lt (distance b) (distance a).

(** No row compares as belonging before its predecessor. *)
Fixpoint no_inversion (reverse : bool) (rows : list QueryResult) : bool :=
  match rows with
  | a :: (b :: _) as rest =>
      negb (out_of_order reverse a b) && no_inversion reverse rest
  | _ => true
  end.

(** Every block of the partial is empty. *)
Definition all_empty (x : Partial) : bool :=
  match x with
  | Response r =>
      forallb (fun blk =>
                 match query_result_arrays blk with
                 | [] => true
                 | _ => false
                 end) (topk_query_result r)
  | Tuple _ _ => true
  end.

(** The partial with the status of each response replaced; a
    tuple-shaped partial is left as it is. *)
Definition with_status (f : TopKQueryResultList -> Status) (x : Partial)
    : Partial :=
  match x with
  | Response r =>
      Response {| status := f r; topk_query_result := topk_query_result r |}
  | Tuple st payload => Tuple st payload
  end.

(** The result of a merge, fed back as a partial. *)
Definition as_partial (r : Status * list TopKQueryResult) : Partial :=
  Response {| status := r.1; topk_query_result := r.2 |}.

(** Two rows at the same distance: neither is below the other. *)
Definition same_distance (a b : QueryResult) : Prop :=
  tied (distance a) b = true.

(** Two merge results that are equal modulo the tie-break: the same
    status, and position by position rows at the same distance. *)
Definition tie_equal (r1 r2 : Status * list TopKQueryResult) : Prop :=
  r1.1 = r2.1 /\
  Forall2 (fun b1 b2 =>
             Forall2 same_distance (query_result_arrays b1)
               (query_result_arrays b2)) r1.2 r2.2.

End Spec.

(** The merge of one group of partials, as a partial of a further
    merge. *)
Definition merge_group (K : Z) (reverse : bool) (group : list Partial)
    : Partial :=
  Spec.as_partial (_do_merge group K reverse).

(** ** The order of the distances *)

Module Order.

(** A float that is not NaN, as a point of a lexicographic order on
    triples: class (-inf, negative, zero, positive, +inf), exponent and
    mantissa (negated for the negative numbers). *)
Definition fkey (x : spec_float) : Z * Z * Z :=
  match x with
  | S754_infinity true => (0, 0, 0)
  | S754_finite true m e => (1, - e, - Z.pos m)
  | S754_zero _ => (2, 0, 0)
  | S754_finite false m e => (3, e, Z.pos m)
  | S754_infinity false => (4, 0, 0)
  | S754_nan => (5, 0, 0)
  end.

Definition lex_lt (a b : Z * Z * Z) : Prop :=
  a.1.1 < b.1.1 \/
  (a.1.1 = b.1.1 /\ (a.1.2 < b.1.2 \/ (a.1.2 = b.1.2 /\ a.2 < b.2))).

Definition lex_ltb (a b : Z * Z * Z) : bool :=
  (a.1.1 <? b.1.1) ||
  ((a.1.1 =? b.1.1) &&
     ((a.1.2 <? b.1.2) || ((a.1.2 =? b.1.2) && (a.2 <? b.2)))).

(** The total comparison of rows that [<] on distances is on rows
    without NaN, for either direction. *)
Definition row_lt (reverse : bool) (a b : QueryResult) : bool :=
  if reverse then lex_ltb (fkey (distance b)) (fkey (distance a))
  else lex_ltb (fkey (distance a)) (fkey (distance b)).

(** The order of a direction on the points: no strict descent. *)
Definition kle (reverse : bool) (a b : Z * Z * Z) : Prop :=
  (if reverse then lex_ltb a b else lex_ltb b a) = false.

(** The point of a row. *)
Definition row_key (x : QueryResult) : Z * Z * Z := fkey (distance x).

(** [x] may stand before [y]: [y] is not strictly below [x]. *)
Definition le {A} (lt : A -> A -> bool) (x y : A) : Prop := lt y x = false.

(** [x] is equivalent to [d]: neither is strictly below the other. *)
Definition eqv {A} (lt : A -> A -> bool) (d x : A) : bool :=
  negb (lt x d) && negb (lt d x).

(** The stable merge of two lists: the right head goes first only when
    it is strictly smaller. *)
Fixpoint smerge {A} (lt : A -> A -> bool) (s t : list A) : list A :=
  let fix go (t : list A) : list A :=
    match s, t with
    | [], _ => t
    | _, [] => s
    | x :: s', y :: t' =>
        if lt y x then y :: go t' else x :: smerge lt s' t
    end in
  go t.

End Order.

(** ** Sample data *)

Module Sample.

(** The binary64 values 0.5, 1.0 and 2.0, and NaN. *)
Definition half : spec_float := S754_finite false 4503599627370496 (-53).
Definition one : spec_float := S754_finite false 4503599627370496 (-52).
Definition two : spec_float := S754_finite false 4503599627370496 (-51).
Definition nan : spec_float := S754_nan.

Definition row (i : Z) (d : spec_float) : QueryResult :=
  {| id := i; distance := d |}.

Definition block (rows : list QueryResult) : TopKQueryResult :=
  {| query_result_arrays := rows |}.

(** A backend response with the given blocks. *)
Definition response (blocks : list (list QueryResult)) : Partial :=
  Response {| status := success_status;
              topk_query_result := map block blocks |}.

Definition unavailable : Status :=
  {| error_code := 2; reason := "connect failed" |}.

Definition schema (m : MetricType) : TableSchema :=
  {| schema_table_name := "t"; dimension := 2; index_file_size := 1024;
     metric_type := m |}.

(** A backend whose [describe_table] answers [st], whose router returns
    [plan] and whose nodes all answer [answer]; the workers complete in
    submission order. *)
Definition backend (st : Status) (plan : list (string * QueryParams))
    (answer : Partial) : Backend :=
  {| range_to_date := fun _ => (0, 0);
     routing := fun _ _ => plan;
     describe_table := fun _ => (st, schema L2);
     search_vectors_in_files := fun _ _ _ _ _ => answer;
     completion := fun l => l;
     completion_perm := fun l => Permutation_refl l |}.

Definition one_node : list (string * QueryParams) :=
  [("10.0.0.1:19530", {| table_id := "t"; file_ids := ["1"; "2"] |})].

(** A request with one query vector on table [t]. *)
Definition request (k np : Z) : SearchParam :=
  {| table_name := "t"; query_record_array := [[one; two]];
     query_range_array := []; topk := k; nprobe := np |}.

Definition two_nodes : list (string * QueryParams) :=
  [("10.0.0.1:19530", {| table_id := "t"; file_ids := ["1"] |});
   ("10.0.0.2:19530", {| table_id := "t"; file_ids := ["2"] |})].

(** A backend of two nodes that answer rows at the same distance, the
    second node's worker completing first. *)
Definition backend_second_first : Backend :=
  {| range_to_date := fun _ => (0, 0);
     routing := fun _ _ => two_nodes;
     describe_table := fun _ => (success_status, schema L2);
     search_vectors_in_files := fun addr _ _ _ _ =>
       if String.eqb addr "10.0.0.1:19530" then response [[row 1 one]]
       else response [[row 2 one]];
     completion := fun l => rev l;
     completion_perm := fun l => Permutation_sym (Permutation_rev l) |}.

(** A handler that has cached nothing and called nothing. *)
Definition fresh : Handler := {| table_meta := ∅; calls := [] |}.

End Sample.

(** ** Sorting with a strict weak order *)

Section StableSort.
Context {A : Type} (lt : A -> A -> bool).
Hypothesis lt_asym : forall x y, lt x y = true -> lt y x = false.
Hypothesis lt_trans :
  forall x y z, lt x y = true -> lt y z = true -> lt x z = true.
Hypothesis lt_ntrans :
  forall x y z, lt x y = false -> lt y z = false -> lt x z = false.

Local Abbreviation le := (Order.le lt).
Local Abbreviation eqv := (Order.eqv lt).

Lemma le_trans x y z : le x y -> le y z -> le x z.
Proof. unfold Order.le. intros Hxy Hyz. exact (lt_ntrans z y x Hyz Hxy). Qed.

Lemma lt_le_trans x y z : lt x y = true -> le y z -> lt x z = true.
Proof.
  unfold Order.le. intros Hxy Hyz.
  destruct (lt x z) eqn:Hxz; [reflexivity|].
  rewrite (lt_ntrans x z y Hxz Hyz) in Hxy. discriminate.
Qed.

Lemma smerge_nil_l t : Order.smerge lt [] t = t.
Proof. destruct t; reflexivity. Qed.

Lemma smerge_nil_r s : Order.smerge lt s [] = s.
Proof. destruct s; reflexivity. Qed.

Lemma smerge_cons x s y t :
  Order.smerge lt (x :: s) (y :: t)
  = if lt y x then y :: Order.smerge lt (x :: s) t
    else x :: Order.smerge lt s (y :: t).
Proof. reflexivity. Qed.

Lemma insert_smerge a s t :
  Py.insert lt a (Order.smerge lt s t)
  = Order.smerge lt (Py.insert lt a s) t.
Proof.
  revert t. induction s as [|x s IHs]; intros t.
  - rewrite smerge_nil_l. cbn [Py.insert].
    induction t as [|y t IHt]; [reflexivity|].
    rewrite smerge_cons, smerge_nil_l. cbn [Py.insert].
    destruct (lt y a); [now rewrite IHt | reflexivity].
  - induction t as [|y t IHt].
    + now rewrite !smerge_nil_r.
    + rewrite smerge_cons. destruct (lt y x) eqn:Hyx.
      * cbn [Py.insert]. rewrite IHt. cbn [Py.insert].
        destruct (lt x a) eqn:Hxa.
        -- rewrite (lt_trans y x a Hyx Hxa).
           now rewrite smerge_cons, Hyx.
        -- destruct (lt y a) eqn:Hya.
           ++ now rewrite smerge_cons, Hya.
           ++ now rewrite !smerge_cons, Hya, Hyx.
      * cbn [Py.insert]. destruct (lt x a) eqn:Hxa.
        -- now rewrite IHs, smerge_cons, Hyx.
        -- now rewrite !smerge_cons, (lt_ntrans y x a Hyx Hxa), Hyx.
Qed.

Lemma stable_sort_app l1 l2 :
  Py.stable_sort lt (l1 ++ l2)
  = Order.smerge lt (Py.stable_sort lt l1) (Py.stable_sort lt l2).
Proof.
  induction l1 as [|x l1 IH]; cbn [Py.stable_sort app].
  - now rewrite smerge_nil_l.
  - rewrite IH. apply insert_smerge.
Qed.

Lemma firstn_smerge n : forall m s t,
  (n <= m)%nat ->
  firstn n (Order.smerge lt (firstn m s) t)
  = firstn n (Order.smerge lt s t).
Proof.
  induction n as [|n IHn]; intros m s t Hnm; [reflexivity|].
  destruct m as [|m]; [lia|].
  destruct s as [|x s]; [reflexivity|].
  induction t as [|y t IHt].
  - rewrite !smerge_nil_r, firstn_firstn. f_equal. lia.
  - cbn [firstn] in *. rewrite !smerge_cons. destruct (lt y x).
    + cbn [firstn]. f_equal.
      change (x :: firstn m s) with (firstn (S m) (x :: s)).
      apply IHn. lia.
    + cbn [firstn]. f_equal. apply IHn. lia.
Qed.

(** Sortedness. *)
Lemma insert_Sorted a s : Sorted le s -> Sorted le (Py.insert lt a s).
Proof.
  induction 1 as [|x s Hs IH Hx]; simpl.
  - repeat constructor.
  - destruct (lt x a) eqn:Hxa.
    + constructor; [exact IH|].
      destruct Hx as [|y s' Hxy]; simpl.
      * constructor. unfold Order.le. now apply lt_asym.
      * destruct (lt y a); constructor; [exact Hxy|].
        unfold Order.le. now apply lt_asym.
    + constructor; [now constructor|]. constructor. exact Hxa.
Qed.

Lemma stable_sort_Sorted l : Sorted le (Py.stable_sort lt l).
Proof.
  induction l; simpl; [constructor | now apply insert_Sorted].
Qed.

Lemma stable_sort_StronglySorted l : StronglySorted le (Py.stable_sort lt l).
Proof.
  apply Sorted_StronglySorted; [|apply stable_sort_Sorted].
  intros x y z. apply le_trans.
Qed.

Lemma stable_sort_id s : Sorted le s -> Py.stable_sort lt s = s.
Proof.
  induction 1 as [|x s Hs IH Hx]; simpl; [reflexivity|].
  rewrite IH. destruct Hx as [|y s' Hxy]; simpl; [reflexivity|].
  unfold Order.le in Hxy. now rewrite Hxy.
Qed.

Lemma Sorted_firstn n s : Sorted le s -> Sorted le (firstn n s).
Proof.
  revert s. induction n as [|n IH]; intros s Hs; [constructor|].
  destruct Hs as [|x s Hs Hx]; simpl; [constructor|].
  constructor; [now apply IH|].
  destruct Hx; destruct n; simpl; constructor; assumption.
Qed.

(** One step of the incremental merge keeps the first [n] rows of the
    sort of everything seen so far. *)
Lemma topk_step n l1 l2 :
  firstn n (Py.stable_sort lt (firstn n (Py.stable_sort lt l1) ++ l2))
  = firstn n (Py.stable_sort lt (l1 ++ l2)).
Proof.
  rewrite !stable_sort_app.
  rewrite (stable_sort_id (firstn n _))
    by apply Sorted_firstn, stable_sort_Sorted.
  now apply firstn_smerge.
Qed.

Lemma topk_fold n (blocks : list (list A)) : forall seen,
  fold_left (fun acc b => firstn n (Py.stable_sort lt (acc ++ b))) blocks
    (firstn n (Py.stable_sort lt seen))
  = firstn n (Py.stable_sort lt (seen ++ concat blocks)).
Proof.
  induction blocks as [|b blocks IH]; intros seen; simpl.
  - now rewrite app_nil_r.
  - rewrite topk_step, IH. now rewrite app_assoc.
Qed.

(** Permutation and stability. *)
Lemma insert_Permutation a s : Permutation (Py.insert lt a s) (a :: s).
Proof.
  induction s as [|x s IH]; simpl; [reflexivity|].
  destruct (lt x a); [|reflexivity].
  rewrite IH. apply perm_swap.
Qed.

Lemma stable_sort_Permutation l : Permutation (Py.stable_sort lt l) l.
Proof.
  induction l as [|x l IH]; simpl; [reflexivity|].
  rewrite insert_Permutation. now constructor.
Qed.

Lemma filter_insert d a s :
  filter (fun x => eqv d x = true) (Py.insert lt a s)
  = filter (fun x => eqv d x = true) (a :: s).
Proof.
  induction s as [|x s IH]; simpl; [reflexivity|].
  destruct (lt x a) eqn:Hxa; [|reflexivity].
  rewrite !filter_cons in *. rewrite IH.
  destruct (decide (eqv d a = true)) as [Ha|Ha];
    destruct (decide (eqv d x = true)) as [Hx|Hx]; try reflexivity.
  exfalso. unfold Order.eqv in Ha, Hx.
  apply andb_true_iff in Ha as [Ha1 Ha2], Hx as [Hx1 Hx2].
  apply negb_true_iff in Ha1, Ha2, Hx1, Hx2.
  rewrite (lt_ntrans x d a Hx1 Ha2) in Hxa. discriminate.
Qed.

Lemma stable_sort_stable d l :
  filter (fun x => eqv d x = true) (Py.stable_sort lt l)
  = filter (fun x => eqv d x = true) l.
Proof.
  induction l as [|x l IH]; simpl; [reflexivity|].
  rewrite filter_insert, !filter_cons, IH. reflexivity.
Qed.

(** Sorting the reversed list and reversing the result is the stable
    sort for the opposite order. *)
Lemma insert_passes_all (lt' : A -> A -> bool) x l :
  (forall r, In r l -> lt' r x = true) -> Py.insert lt' x l = l ++ [x].
Proof.
  induction l as [|r l IH]; intros Hall; simpl; [reflexivity|].
  rewrite (Hall r) by now left.
  rewrite IH; [reflexivity|]. intros r' Hr'. apply Hall. now right.
Qed.

Lemma insert_stops (lt' : A -> A -> bool) x l s :
  lt' s x = false -> Py.insert lt' x (l ++ [s]) = Py.insert lt' x l ++ [s].
Proof.
  intros Hs. induction l as [|r l IH]; simpl.
  - now rewrite Hs.
  - destruct (lt' r x); [now rewrite IH | reflexivity].
Qed.

Lemma rev_smerge_single x s :
  StronglySorted le s ->
  rev (Order.smerge lt s [x]) = Py.insert (fun a b => lt b a) x (rev s).
Proof.
  induction 1 as [|y s Hs IH Hy]; [reflexivity|].
  rewrite smerge_cons, smerge_nil_r. destruct (lt x y) eqn:Hxy.
  - rewrite insert_passes_all; [reflexivity|].
    intros r Hr. apply in_rev in Hr. destruct Hr as [<-|Hr]; [exact Hxy|].
    apply lt_le_trans with y; [exact Hxy|].
    rewrite List.Forall_forall in Hy. now apply Hy.
  - cbn [rev]. rewrite IH. symmetry. now apply insert_stops.
Qed.

Lemma rev_stable_sort_rev l :
  rev (Py.stable_sort lt (rev l)) = Py.stable_sort (fun a b => lt b a) l.
Proof.
  induction l as [|x l IH]; [reflexivity|].
  cbn [rev Py.stable_sort]. rewrite stable_sort_app.
  change (Py.stable_sort lt [x]) with [x].
  rewrite rev_smerge_single by apply stable_sort_StronglySorted.
  now rewrite IH.
Qed.

End StableSort.

(** The sort only looks at the comparisons between the elements of its
    argument. *)
Lemma insert_ext {A} (lt1 lt2 : A -> A -> bool) x s :
  (forall y, In y s -> lt1 y x = lt2 y x) ->
  Py.insert lt1 x s = Py.insert lt2 x s.
Proof.
  induction s as [|y s IH]; intros H; simpl; [reflexivity|].
  rewrite <- (H y) by now left.
  rewrite IH; [reflexivity|]. intros z Hz. apply H. now right.
Qed.

Lemma stable_sort_ext {A} (lt1 lt2 : A -> A -> bool) l :
  (forall x y, In x l -> In y l -> lt1 x y = lt2 x y) ->
  Py.stable_sort lt1 l = Py.stable_sort lt2 l.
Proof.
  induction l as [|x l IH]; intros H; simpl; [reflexivity|].
  rewrite IH by (intros; apply H; now right).
  apply insert_ext. intros y Hy. apply H; [right|now left].
  eapply Permutation_in; [apply stable_sort_Permutation|exact Hy].
Qed.

(** ** The order of the distances is a strict weak order off NaN *)

Ltac bool_cases :=
  repeat match goal with
    | |- context [Z.ltb ?a ?b] => destruct (Z.ltb_spec a b)
    | |- context [Z.eqb ?a ?b] => destruct (Z.eqb_spec a b)
    | H : context [Z.ltb ?a ?b] |- _ => destruct (Z.ltb_spec a b)
    | H : context [Z.eqb ?a ?b] |- _ => destruct (Z.eqb_spec a b)
    end;
  simpl in *; try reflexivity; try discriminate; try lia.

Lemma lex_ltb_asym a b : Order.lex_ltb a b = true -> Order.lex_ltb b a = false.
Proof.
  destruct a as [[a1 a2] a3], b as [[b1 b2] b3]. unfold Order.lex_ltb.
  simpl. bool_cases.
Qed.

Lemma lex_ltb_trans a b c :
  Order.lex_ltb a b = true -> Order.lex_ltb b c = true ->
  Order.lex_ltb a c = true.
Proof.
  destruct a as [[a1 a2] a3], b as [[b1 b2] b3], c as [[c1 c2] c3].
  unfold Order.lex_ltb. simpl. bool_cases.
Qed.

Lemma lex_ltb_ntrans a b c :
  Order.lex_ltb a b = false -> Order.lex_ltb b c = false ->
  Order.lex_ltb a c = false.
Proof.
  destruct a as [[a1 a2] a3], b as [[b1 b2] b3], c as [[c1 c2] c3].
  unfold Order.lex_ltb. simpl. bool_cases.
Qed.

Lemma float_compare_fkey x y :
  Py.is_nan x = false -> Py.is_nan y = false ->
  SFcompare x y
  = Some (if Order.lex_ltb (Order.fkey x) (Order.fkey y) then Lt
          else if Order.lex_ltb (Order.fkey y) (Order.fkey x) then Gt
          else Eq).
Proof.
  intros Hx Hy.
  destruct x as [sx|sx| |sx mx ex]; try discriminate;
    destruct y as [sy|sy| |sy my ey]; try discriminate;
    try destruct sx; try destruct sy; try reflexivity;
    unfold Order.lex_ltb; cbn [SFcompare Order.fkey fst snd];
    change (PosDef.Pos.compare_cont Eq mx my) with (Pos.compare mx my);
    destruct (Z.compare_spec ex ey);
    destruct (Pos.compare_spec mx my); subst; bool_cases.
Qed.

Lemma float_lt_fkey x y :
  Py.is_nan x = false -> Py.is_nan y = false ->
  Py.float_lt x y = Order.lex_ltb (Order.fkey x) (Order.fkey y).
Proof.
  intros Hx Hy. unfold Py.float_lt, SFltb.
  rewrite float_compare_fkey by assumption.
  destruct (Order.lex_ltb (Order.fkey x) (Order.fkey y)); [reflexivity|].
  now destruct (Order.lex_ltb (Order.fkey y) (Order.fkey x)).
Qed.

Lemma float_le_fkey x y :
  Py.is_nan x = false -> Py.is_nan y = false ->
  Py.float_le x y = negb (Order.lex_ltb (Order.fkey y) (Order.fkey x)).
Proof.
  intros Hx Hy. unfold Py.float_le, SFleb.
  rewrite float_compare_fkey by assumption.
  destruct (Order.lex_ltb (Order.fkey x) (Order.fkey y)) eqn:E.
  - now rewrite (lex_ltb_asym _ _ E).
  - now destruct (Order.lex_ltb (Order.fkey y) (Order.fkey x)).
Qed.

Lemma row_lt_asym r x y :
  Order.row_lt r x y = true -> Order.row_lt r y x = false.
Proof. destruct r; apply lex_ltb_asym. Qed.

Lemma row_lt_trans r x y z :
  Order.row_lt r x y = true -> Order.row_lt r y z = true ->
  Order.row_lt r x z = true.
Proof.
  destruct r; simpl; intros H1 H2; eauto using lex_ltb_trans.
Qed.

Lemma row_lt_ntrans r x y z :
  Order.row_lt r x y = false -> Order.row_lt r y z = false ->
  Order.row_lt r x z = false.
Proof.
  destruct r; simpl; intros H1 H2; eauto using lex_ltb_ntrans.
Qed.

(** ** [sorted] on rows without NaN *)

Lemma rows_nan_free_In rows row :
  Spec.rows_nan_free rows = true -> In row rows ->
  Py.is_nan (distance row) = false.
Proof.
  unfold Spec.rows_nan_free. rewrite forallb_forall. intros H Hin.
  apply negb_true_iff. now apply H.
Qed.

Lemma rows_nan_free_app l1 l2 :
  Spec.rows_nan_free (l1 ++ l2)
  = Spec.rows_nan_free l1 && Spec.rows_nan_free l2.
Proof. apply forallb_app. Qed.

Lemma rows_nan_free_incl l1 l2 :
  (forall x, In x l1 -> In x l2) ->
  Spec.rows_nan_free l2 = true -> Spec.rows_nan_free l1 = true.
Proof.
  unfold Spec.rows_nan_free. rewrite !forallb_forall. auto.
Qed.

Lemma rows_nan_free_concat blocks :
  Spec.rows_nan_free (concat blocks)
  = forallb Spec.rows_nan_free blocks.
Proof.
  induction blocks as [|b blocks IH]; simpl; [reflexivity|].
  now rewrite rows_nan_free_app, IH.
Qed.

Lemma sorted_Permutation {A} (key : A -> spec_float) reverse l :
  Permutation (Py.sorted key reverse l) l.
Proof.
  unfold Py.sorted. destruct reverse.
  - rewrite <- Permutation_rev, stable_sort_Permutation.
    symmetry. apply Permutation_rev.
  - apply stable_sort_Permutation.
Qed.

(** Off NaN, [sorted] is the stable sort for the total order of the
    metric. *)
Lemma sorted_nan_free reverse rows :
  Spec.rows_nan_free rows = true ->
  Py.sorted distance reverse rows
  = Py.stable_sort (Order.row_lt reverse) rows.
Proof.
  intros Hfree.
  assert (Hext : forall l, (forall x, In x l -> In x rows) ->
    Py.stable_sort (fun a b => Py.float_lt (distance a) (distance b)) l
    = Py.stable_sort (Order.row_lt false) l).
  { intros l Hl. apply stable_sort_ext. intros x y Hx Hy. simpl.
    apply float_lt_fkey; eapply rows_nan_free_In; eauto. }
  unfold Py.sorted. destruct reverse.
  - rewrite Hext by (intros x Hx; now apply in_rev).
    apply (rev_stable_sort_rev (Order.row_lt false)).
    + apply row_lt_asym.
    + apply row_lt_trans.
    + apply row_lt_ntrans.
  - apply Hext. auto.
Qed.

(** ** The merger's dictionary *)

Lemma merge_position_lookup K r (m : gmap nat (list QueryResult)) p b q :
  merge_position K r m (p, b) !! q
  = if decide (p = q) then Spec.step K r (m !! p) (query_result_arrays b)
    else m !! q.
Proof.
  unfold merge_position, Spec.step.
  rewrite lookup_insert_eq, insert_insert_eq. simpl.
  rewrite lookup_insert. destruct (decide (p = q)); reflexivity.
Qed.

Lemma merge_enumerate_lookup K r blocks :
  forall i (m : gmap nat (list QueryResult)) q,
  fold_left (merge_position K r) (Py.enumerate_from i blocks) m !! q
  = match (if decide (i <= q)%nat then blocks !! (q - i)%nat else None) with
    | Some b => Spec.step K r (m !! q) (query_result_arrays b)
    | None => m !! q
    end.
Proof.
  induction blocks as [|b blocks IH]; intros i m q;
    cbn [Py.enumerate_from fold_left].
  - rewrite lookup_nil. destruct (decide (i <= q)%nat); reflexivity.
  - rewrite IH, merge_position_lookup.
    destruct (decide (i = q)) as [->|Hne].
    + destruct (decide (S q <= q)%nat); [lia|].
      destruct (decide (q <= q)%nat); [|lia].
      now replace (q - q)%nat with 0%nat by lia.
    + destruct (decide (S i <= q)%nat), (decide (i <= q)%nat);
        try lia; [|reflexivity].
      now replace (q - i)%nat with (S (q - S i)) by lia.
Qed.

Lemma merge_response_lookup K r (m : gmap nat (list QueryResult)) resp q :
  merge_response K r m resp !! q
  = match topk_query_result resp !! q with
    | Some b => Spec.step K r (m !! q) (query_result_arrays b)
    | None => m !! q
    end.
Proof.
  unfold merge_response, Py.enumerate. rewrite merge_enumerate_lookup.
  destruct (decide (0 <= q)%nat); [|lia].
  now replace (q - 0)%nat with q by lia.
Qed.

(** Without a tuple the loop runs to its end, and the entry of a
    position is the fold of the blocks at that position. *)
Lemma merge_loop_responses K r ps :
  forall m : gmap nat (list QueryResult),
  forallb Spec.is_response ps = true ->
  exists m', merge_loop K r ps m = inr m' /\
    forall q, m' !! q = fold_left (Spec.step K r) (Spec.column q ps) (m !! q).
Proof.
  induction ps as [|[resp|st pl] ps IH]; intros m Hps; simpl in *.
  - now exists m.
  - destruct (IH (merge_response K r m resp) Hps) as (m' & Hm' & Hq).
    exists m'. split; [exact Hm'|]. intros q. rewrite Hq.
    rewrite merge_response_lookup. unfold Spec.column. simpl.
    destruct (topk_query_result resp !! q); reflexivity.
  - discriminate.
Qed.

(** The loop stops at the first tuple-shaped partial. *)
Lemma merge_loop_tuple K r pre st pl post :
  forall m : gmap nat (list QueryResult),
  forallb Spec.is_response pre = true ->
  merge_loop K r (pre ++ Tuple st pl :: post) m = inl st.
Proof.
  induction pre as [|[resp|st' pl'] pre IH]; intros m Hpre; simpl in *.
  - reflexivity.
  - now apply IH.
  - discriminate.
Qed.

Lemma fold_step_is_Some K r blocks : forall o,
  is_Some (fold_left (Spec.step K r) blocks o) <-> is_Some o \/ blocks <> [].
Proof.
  induction blocks as [|b blocks IH]; intros o; simpl.
  - split; [now left | now intros [?|?]].
  - rewrite IH. split; [now right|]. intros _. left. unfold Spec.step. eauto.
Qed.

Lemma column_nonempty q ps :
  Spec.column q ps <> [] <-> (q < Spec.max_blocks ps)%nat.
Proof.
  unfold Spec.column, Spec.max_blocks.
  induction ps as [|x ps IH]; simpl.
  - split; [congruence | lia].
  - assert (H : is_Some (Spec.block_at q x) <-> (q < Spec.blocks_of x)%nat).
    { destruct x as [resp|]; simpl.
      - rewrite fmap_is_Some. apply lookup_lt_is_Some.
      - split; [intros [? ?]; discriminate | lia]. }
    destruct (Spec.block_at q x) eqn:E.
    + split; [intros _|congruence].
      assert (q < Spec.blocks_of x)%nat by (apply H; eauto). lia.
    + rewrite IH. split; [lia|]. intros Hq.
      destruct (Nat.max_spec (Spec.blocks_of x)
                  (foldr Nat.max 0%nat (map Spec.blocks_of ps)))
        as [[? Hm]|[? Hm]]; rewrite Hm in Hq; [exact Hq|].
      assert (is_Some (@None (list QueryResult))) as [? ?]
        by (apply H; lia). discriminate.
Qed.

(** The items of a dictionary whose keys are the positions below [n],
    sorted: one item per position, in increasing order. *)
Lemma sorted_items_range (m : gmap nat (list QueryResult)) n :
  (forall q, is_Some (m !! q) <-> (q < n)%nat) ->
  sorted_items m = map (fun q => (q, default [] (m !! q))) (seq 0 n).
Proof.
  intros Hdom. unfold sorted_items.
  set (lt := fun a b : nat * list QueryResult => (a.1 <? b.1)%nat).
  assert (Hperm : Permutation (Py.stable_sort lt (map_to_list m))
                    (map_to_list m)) by apply stable_sort_Permutation.
  apply (StronglySorted_unique_strong (Order.le lt)).
  - intros [q1 v1] [q2 v2] H1 H2 Hle1 Hle2.
    unfold Order.le, lt in Hle1, Hle2. simpl in *.
    apply Nat.ltb_ge in Hle1, Hle2. assert (q1 = q2) as -> by lia.
    rewrite Hperm in H1. apply elem_of_map_to_list in H1.
    apply list_elem_of_fmap in H2 as (q & Heq & _). inversion Heq; subst.
    now rewrite H1.
  - apply stable_sort_StronglySorted; unfold lt; intros x y.
    + intros Hxy. apply Nat.ltb_lt in Hxy. apply Nat.ltb_ge. lia.
    + intros z Hxy Hyz. apply Nat.ltb_ge in Hxy, Hyz. apply Nat.ltb_ge. lia.
  - clear Hdom Hperm. generalize 0%nat as i.
    induction n as [|n IH]; intros i; simpl.
    + constructor.
    + constructor; [apply IH|]. apply List.Forall_forall. intros x Hx.
      apply in_map_iff in Hx as (q & <- & Hq). apply in_seq in Hq.
      unfold Order.le, lt. simpl. apply Nat.ltb_ge. lia.
  - rewrite Hperm. apply NoDup_Permutation.
    + apply NoDup_map_to_list.
    + apply NoDup_fmap_2; [|apply NoDup_seq]. intros q1 q2 Heq. now inversion Heq.
    + intros [q v]. rewrite elem_of_map_to_list, list_elem_of_fmap. split.
      * intros Hq. exists q. rewrite Hq. split; [reflexivity|].
        apply elem_of_seq. assert (q < n)%nat by (apply Hdom; eauto). lia.
      * intros (q' & Heq & Hq'). inversion Heq; subst.
        apply elem_of_seq in Hq'.
        destruct (proj2 (Hdom q')) as [v Hv]; [lia|]. now rewrite Hv.
Qed.

(** The merge of response-shaped partials: success, and one block per
    position below the largest block count, each the fold of the blocks
    at its position. *)
Lemma do_merge_responses K r ps :
  forallb Spec.is_response ps = true ->
  _do_merge ps K r
  = (success_status,
     map (fun q => {| query_result_arrays :=
                        Spec.folded_block K r (Spec.column q ps) |})
       (seq 0 (Spec.max_blocks ps))).
Proof.
  intros Hps. unfold _do_merge.
  destruct (merge_loop_responses K r ps ∅ Hps) as (m & Hm & Hq).
  rewrite Hm. destruct ps as [|x ps]; [reflexivity|].
  f_equal. rewrite (sorted_items_range m (Spec.max_blocks (x :: ps))).
  - rewrite map_map. apply map_ext. intros q. simpl.
    unfold Spec.folded_block. now rewrite Hq, lookup_empty.
  - intros q. rewrite Hq, lookup_empty, fold_step_is_Some, column_nonempty.
    split; [intros [[? ?]|?]; [discriminate|assumption] | now right].
Qed.

(** A tuple-shaped partial after response-shaped ones ends the merge. *)
Lemma do_merge_tuple K r pre st pl post :
  forallb Spec.is_response pre = true ->
  _do_merge (pre ++ Tuple st pl :: post) K r = (st, []).
Proof.
  intros Hpre. unfold _do_merge.
  rewrite (merge_loop_tuple K r pre st pl post ∅ Hpre).
  destruct pre; reflexivity.
Qed.

(** ** The fold of one position is the top [K] of the sorted concatenation *)

Lemma slice_to_nonneg {A} K (l : list A) :
  0 <= K -> Py.slice_to K l = firstn (Z.to_nat K) l.
Proof.
  intros HK. unfold Py.slice_to.
  destruct (Z.leb_spec 0 K); [reflexivity | lia].
Qed.

Lemma In_firstn {A} n (l : list A) x : In x (firstn n l) -> In x l.
Proof.
  intros Hx. rewrite <- (firstn_skipn n l). apply in_or_app. now left.
Qed.

Lemma topk_nan_free r n rows :
  Spec.rows_nan_free rows = true ->
  Spec.rows_nan_free (firstn n (Py.stable_sort (Order.row_lt r) rows)) = true.
Proof.
  apply rows_nan_free_incl. intros x Hx. apply In_firstn in Hx.
  eapply Permutation_in; [apply stable_sort_Permutation | exact Hx].
Qed.

Lemma row_topk_step r n l1 l2 :
  firstn n (Py.stable_sort (Order.row_lt r)
              (firstn n (Py.stable_sort (Order.row_lt r) l1) ++ l2))
  = firstn n (Py.stable_sort (Order.row_lt r) (l1 ++ l2)).
Proof.
  apply topk_step; [apply row_lt_asym | apply row_lt_trans
                   | apply row_lt_ntrans].
Qed.

Lemma fold_step_seen K r blocks : forall seen,
  0 <= K ->
  Spec.rows_nan_free seen = true ->
  forallb Spec.rows_nan_free blocks = true ->
  fold_left (Spec.step K r) blocks
    (Some (firstn (Z.to_nat K) (Py.stable_sort (Order.row_lt r) seen)))
  = Some (firstn (Z.to_nat K)
            (Py.stable_sort (Order.row_lt r) (seen ++ concat blocks))).
Proof.
  induction blocks as [|b blocks IH]; intros seen HK Hseen Hblocks; simpl.
  - now rewrite app_nil_r.
  - simpl in Hblocks. apply andb_true_iff in Hblocks as [Hb Hblocks].
    unfold Spec.step at 2. simpl.
    rewrite slice_to_nonneg by exact HK.
    rewrite sorted_nan_free
      by (rewrite rows_nan_free_app, topk_nan_free, Hb; auto).
    rewrite row_topk_step, IH, app_assoc; auto.
    now rewrite rows_nan_free_app, Hseen, Hb.
Qed.

Lemma folded_block_merged K r blocks :
  0 <= K ->
  forallb Spec.rows_nan_free blocks = true ->
  Spec.folded_block K r blocks = Spec.merged_block K r blocks.
Proof.
  intros HK Hblocks. unfold Spec.folded_block, Spec.merged_block.
  rewrite sorted_nan_free by now rewrite rows_nan_free_concat.
  destruct blocks as [|b blocks]; [now destruct (Z.to_nat K)|].
  simpl in *. apply andb_true_iff in Hblocks as [Hb Hblocks].
  unfold Spec.step at 2. simpl.
  rewrite slice_to_nonneg, sorted_nan_free by assumption.
  now rewrite fold_step_seen.
Qed.

(** ** [sorted] sorts, stably, when no distance is NaN *)

Lemma StronglySorted_impl_In {A} (R1 R2 : A -> A -> Prop) l :
  (forall x y, In x l -> In y l -> R1 x y -> R2 x y) ->
  StronglySorted R1 l -> StronglySorted R2 l.
Proof.
  intros Himpl Hs. induction Hs as [|x l Hl IH Hx]; constructor.
  - apply IH. intros a b Ha Hb. apply Himpl; now right.
  - rewrite List.Forall_forall in *. intros y Hy.
    apply Himpl; [now left | now right | now apply Hx].
Qed.

Lemma row_le_in_order r a b :
  Py.is_nan (distance a) = false -> Py.is_nan (distance b) = false ->
  Order.le (Order.row_lt r) a b -> Spec.in_order r a b.
Proof.
  intros Ha Hb. unfold Order.le, Spec.in_order, Order.row_lt.
  destruct r; intros Hlt; rewrite float_le_fkey, Hlt by assumption;
    reflexivity.
Qed.

Lemma tied_eqv r d a :
  Py.is_nan d = false -> Py.is_nan (distance a) = false ->
  Spec.tied d a = Order.eqv (Order.row_lt r) {| id := 0; distance := d |} a.
Proof.
  intros Hd Ha. unfold Spec.tied, Order.eqv, Order.row_lt.
  rewrite !float_lt_fkey by assumption. simpl.
  destruct r; [apply andb_comm | reflexivity].
Qed.

Lemma filter_ext_In {A} (P Q : A -> Prop) `{!forall x, Decision (P x)}
    `{!forall x, Decision (Q x)} (l : list A) :
  (forall x, In x l -> P x <-> Q x) -> filter P l = filter Q l.
Proof.
  induction l as [|x l IH]; intros Hext; [reflexivity|].
  rewrite !filter_cons, IH by (intros; apply Hext; now right).
  pose proof (Hext x (or_introl eq_refl)) as Hx.
  destruct (decide (P x)), (decide (Q x)); try reflexivity; tauto.
Qed.

Lemma sorted_stably_sorted r rows :
  Spec.rows_nan_free rows = true ->
  Spec.stably_sorted r rows (Py.sorted distance r rows).
Proof.
  intros Hfree.
  assert (Hin : forall x, In x (Py.sorted distance r rows) ->
                          Py.is_nan (distance x) = false).
  { intros x Hx. apply (rows_nan_free_In rows); [exact Hfree|].
    eapply Permutation_in; [apply sorted_Permutation | exact Hx]. }
  split; [apply sorted_Permutation|]. split.
  - apply StronglySorted_impl_In with (R1 := Order.le (Order.row_lt r)).
    + intros x y Hx Hy. apply row_le_in_order; auto.
    + rewrite sorted_nan_free by exact Hfree.
      apply stable_sort_StronglySorted;
        [apply row_lt_asym | apply row_lt_ntrans].
  - intros d Hd.
    rewrite (filter_ext_In _
               (fun a => Order.eqv (Order.row_lt r)
                           {| id := 0; distance := d |} a = true)
               (Py.sorted distance r rows))
      by (intros x Hx; rewrite (tied_eqv r) by auto; reflexivity).
    rewrite (filter_ext_In (fun a => Spec.tied d a = true)
               (fun a => Order.eqv (Order.row_lt r)
                           {| id := 0; distance := d |} a = true) rows)
      by (intros x Hx; rewrite (tied_eqv r);
          eauto using rows_nan_free_In; reflexivity).
    rewrite sorted_nan_free by exact Hfree.
    apply stable_sort_stable. apply row_lt_ntrans.
Qed.

(** ** Partials that all hold [nq] blocks *)

Lemma holds_is_response nq ps :
  forallb (Spec.holds nq) ps = true -> forallb Spec.is_response ps = true.
Proof.
  rewrite !forallb_forall. intros H x Hx. specialize (H x Hx).
  now destruct x.
Qed.

Lemma max_blocks_holds nq ps :
  (0 < length ps)%nat -> forallb (Spec.holds nq) ps = true ->
  Spec.max_blocks ps = nq.
Proof.
  unfold Spec.max_blocks.
  induction ps as [|x ps IH]; simpl; [lia|]. intros _ Hps.
  apply andb_true_iff in Hps as [Hx Hps].
  assert (Spec.blocks_of x = nq) as ->
    by (destruct x; simpl in *; [now apply Nat.eqb_eq | discriminate]).
  destruct ps as [|y ps]; [simpl; lia|].
  rewrite IH by (simpl; lia || assumption). lia.
Qed.

Lemma column_holds_length nq ps p :
  forallb (Spec.holds nq) ps = true -> (p < nq)%nat ->
  length (Spec.column p ps) = length ps.
Proof.
  intros Hps Hp. unfold Spec.column.
  induction ps as [|x ps IH]; simpl in *; [reflexivity|].
  apply andb_true_iff in Hps as [Hx Hps].
  destruct x as [resp|]; simpl in *; [|discriminate].
  apply Nat.eqb_eq in Hx.
  destruct (lookup_lt_is_Some_2 (topk_query_result resp) p) as [b Hb];
    [lia|].
  rewrite Hb. simpl. f_equal. now apply IH.
Qed.

Lemma column_nan_free p ps :
  forallb Spec.nan_free ps = true ->
  forallb Spec.rows_nan_free (Spec.column p ps) = true.
Proof.
  unfold Spec.column.
  induction ps as [|x ps IH]; simpl; [reflexivity|]. intros Hps.
  apply andb_true_iff in Hps as [Hx Hps].
  destruct x as [resp|]; simpl in *; [|now apply IH].
  destruct (topk_query_result resp !! p) as [b|] eqn:Hb; simpl;
    [|now apply IH].
  apply andb_true_iff. split; [|now apply IH].
  rewrite forallb_forall in Hx. apply Hx.
  apply list_elem_of_In. eapply list_elem_of_lookup_2. exact Hb.
Qed.

Lemma do_merge_lookup K r ps p :
  forallb Spec.is_response ps = true -> (p < Spec.max_blocks ps)%nat ->
  (_do_merge ps K r).2 !! p
  = Some {| query_result_arrays :=
              Spec.folded_block K r (Spec.column p ps) |}.
Proof.
  intros Hps Hp. rewrite do_merge_responses by exact Hps. simpl.
  rewrite list_lookup_fmap, lookup_seq_lt by exact Hp. reflexivity.
Qed.

(** C1 (as amended).  For a non-empty list of partials that each hold
    [nq] blocks, none tuple-shaped and no distance NaN, and a count
    [K >= 0]: the output block at every position [p < nq] is the
    concatenation of the partials' blocks at [p] (one per partial, in
    partial order), sorted by distance in the metric's order with ties
    kept in the order of the concatenation, cut to its first [K] rows. *)
Theorem merge_block_sorted_topk K reverse nq ps p :
  0 <= K -> (0 < length ps)%nat ->
  forallb (Spec.holds nq) ps = true ->
  forallb Spec.nan_free ps = true ->
  (p < nq)%nat ->
  exists block,
    (_do_merge ps K reverse).2 !! p = Some {| query_result_arrays := block |}
    /\ length (Spec.column p ps) = length ps
    /\ block = Spec.merged_block K reverse (Spec.column p ps)
    /\ Spec.sorted_topk K reverse (concat (Spec.column p ps)) block.
Proof.
  intros HK Hne Hholds Hfree Hp.
  exists (Spec.merged_block K reverse (Spec.column p ps)).
  pose proof (column_nan_free p ps Hfree) as Hcol.
  split; [|split; [|split]].
  - rewrite do_merge_lookup.
    + now rewrite folded_block_merged.
    + now apply holds_is_response with nq.
    + now rewrite (max_blocks_holds nq).
  - now apply column_holds_length with nq.
  - reflexivity.
  - exists (Py.sorted distance reverse (concat (Spec.column p ps))).
    split; [|reflexivity].
    apply sorted_stably_sorted. now rewrite rows_nan_free_concat.
Qed.

Lemma merge_block_sorted_topk_witness :
  exists block,
    (_do_merge [Sample.response [[Sample.row 1 Sample.two]];
                Sample.response [[Sample.row 2 Sample.one]]] 1 false).2
      !! 0%nat = Some {| query_result_arrays := block |}
    /\ block = [Sample.row 2 Sample.one].
Proof.
  destruct (merge_block_sorted_topk 1 false 1
              [Sample.response [[Sample.row 1 Sample.two]];
               Sample.response [[Sample.row 2 Sample.one]]] 0)
    as (block & Hblock & _ & Heq & _);
    [lia | simpl; lia | reflexivity | reflexivity | lia |].
  exists block. split; [exact Hblock | exact Heq].
Defined.

(** C1 fails as stated: with a NaN distance the block the merger returns
    is no sorted arrangement's first [K] rows (here it is the NaN row,
    with a row at distance 1.0 left out), and for an empty list of
    partials there is no output block at all. *)
Lemma merge_block_sorted_topk_fails :
  (let ps := [Sample.response [[Sample.row 1 Sample.nan]];
              Sample.response [[Sample.row 2 Sample.one]]] in
   forallb (Spec.holds 1) ps = true /\
   (_do_merge ps 1 false).2 !! 0%nat
   = Some {| query_result_arrays := [Sample.row 1 Sample.nan] |} /\
   ~ Spec.sorted_topk 1 false (concat (Spec.column 0 ps))
       [Sample.row 1 Sample.nan])
  /\ (forallb (Spec.holds 1) [] = true /\
      (_do_merge [] 1 false).2 !! 0%nat = None).
Proof.
  split; [|split; reflexivity].
  split; [reflexivity|]. split; [vm_compute; reflexivity|].
  intros (s & (Hperm & Hsorted & _) & _).
  apply Permutation_sym in Hperm. simpl in Hperm.
  apply Permutation_length_2_inv in Hperm as [-> | ->];
    inversion Hsorted as [|? ? _ Hhd]; subst;
    apply Forall_cons_1 in Hhd as [Hhd _]; vm_compute in Hhd; discriminate.
Qed.

(** ** Tuple-shaped partials *)

Lemma first_tuple_split ps st :
  Spec.first_tuple ps = Some st ->
  exists pre pl post,
    ps = pre ++ Tuple st pl :: post /\ forallb Spec.is_response pre = true.
Proof.
  induction ps as [|[resp|st' pl] ps IH]; simpl; intros H.
  - discriminate.
  - destruct (IH H) as (pre & pl & post & -> & Hpre).
    now exists (Response resp :: pre), pl, post.
  - inversion H; subst. now exists [], pl, ps.
Qed.

(** C3 (as amended).  When the input holds a tuple-shaped partial, the
    merger returns the status of the first tuple-shaped partial in list
    order, whatever its code, with an empty result list; when every
    tuple-shaped partial is an error partial (status=Error, empty), that
    status is the one of the first error partial. *)
Theorem merge_returns_first_tuple ps st K reverse :
  Spec.first_tuple ps = Some st ->
  _do_merge ps K reverse = (st, []) /\
  (forallb (fun x => Spec.is_response x || Spec.is_error x) ps = true ->
   Spec.first_error ps = Some st).
Proof.
  intros Hfirst. split.
  - destruct (first_tuple_split ps st Hfirst) as (pre & pl & post & -> & Hpre).
    now apply do_merge_tuple.
  - induction ps as [|[resp|st' pl] ps IH]; simpl in *; intros Hall.
    + discriminate.
    + now apply IH.
    + apply andb_true_iff in Hall as [Hx _]. rewrite Hx. exact Hfirst.
Qed.

Lemma merge_returns_first_tuple_witness :
  Spec.first_tuple
    [Sample.response [[Sample.row 1 Sample.one]]; Tuple Sample.unavailable []]
  = Some Sample.unavailable /\
  _do_merge
    [Sample.response [[Sample.row 1 Sample.one]]; Tuple Sample.unavailable []]
    1 false
  = (Sample.unavailable, []).
Proof.
  split; [reflexivity|].
  apply (merge_returns_first_tuple
           [Sample.response [[Sample.row 1 Sample.one]];
            Tuple Sample.unavailable []] Sample.unavailable 1 false).
  reflexivity.
Defined.

(** C3 fails as stated: a tuple-shaped partial with a Success status
    ahead of an error partial ends the merge with Success, not with the
    status of the first error partial. *)
Lemma merge_first_error_fails :
  let ps := [Tuple success_status []; Tuple Sample.unavailable []] in
  Spec.first_error ps = Some Sample.unavailable /\
  _do_merge ps 1 false = (success_status, []) /\
  _do_merge ps 1 false <> (Sample.unavailable, []).
Proof.
  split; [reflexivity|]. split; [reflexivity|]. discriminate.
Qed.

(** C9.  When the first tuple-shaped partial of the input carries a
    Success status, the merger returns that Success status with an empty
    result list, whatever rows the other partials hold: the test is on
    the shape only. *)
Theorem merge_success_tuple_discards pre st payload post K reverse :
  forallb Spec.is_response pre = true ->
  error_code st = SUCCESS ->
  _do_merge (pre ++ Tuple st payload :: post) K reverse = (st, []) /\
  error_code (_do_merge (pre ++ Tuple st payload :: post) K reverse).1
  = SUCCESS /\
  (_do_merge (pre ++ Tuple st payload :: post) K reverse).2 = [].
Proof.
  intros Hpre Hst. rewrite do_merge_tuple by exact Hpre. auto.
Qed.

Lemma merge_success_tuple_discards_witness :
  _do_merge
    ([Sample.response [[Sample.row 1 Sample.one]]]
       ++ Tuple success_status []
       :: [Sample.response [[Sample.row 2 Sample.two]]]) 1 false
  = (success_status, []).
Proof.
  apply (merge_success_tuple_discards
           [Sample.response [[Sample.row 1 Sample.one]]] success_status []
           [Sample.response [[Sample.row 2 Sample.two]]] 1 false);
    reflexivity.
Defined.

(** ** Partials with different numbers of blocks *)

(** C6 (as amended).  When some response-shaped partials hold fewer
    blocks than others (and no partial is tuple-shaped), the merger does
    not reject the input: it returns Success with as many blocks as the
    longest partial holds.  When moreover no distance is NaN and
    [K >= 0], the block at each position is the concatenation of the
    blocks of the partials that have that position, sorted by distance
    in the metric's order and cut to its first [K] rows. *)
Theorem merge_uneven_partials ps K reverse :
  forallb Spec.is_response ps = true ->
  Spec.uneven ps = true ->
  (_do_merge ps K reverse).1 = success_status /\
  length (_do_merge ps K reverse).2 = Spec.max_blocks ps /\
  (0 <= K -> forallb Spec.nan_free ps = true ->
   forall q, (q < Spec.max_blocks ps)%nat ->
     (_do_merge ps K reverse).2 !! q
     = Some {| query_result_arrays :=
                 Spec.merged_block K reverse (Spec.column q ps) |}).
Proof.
  intros Hps _. split; [|split].
  - now rewrite do_merge_responses.
  - rewrite do_merge_responses by exact Hps. simpl.
    now rewrite length_map, length_seq.
  - intros HK Hfree q Hq. rewrite do_merge_lookup by assumption.
    now rewrite folded_block_merged by (auto using column_nan_free).
Qed.

Lemma merge_uneven_partials_witness :
  let ps := [Sample.response [[Sample.row 1 Sample.one]];
             Sample.response [[Sample.row 2 Sample.two];
                              [Sample.row 3 Sample.half]]] in
  Spec.uneven ps = true /\
  (_do_merge ps 1 false).1 = success_status /\
  length (_do_merge ps 1 false).2 = 2%nat /\
  (_do_merge ps 1 false).2 !! 1%nat
  = Some (Sample.block [Sample.row 3 Sample.half]).
Proof.
  split; [reflexivity|].
  destruct (merge_uneven_partials
              [Sample.response [[Sample.row 1 Sample.one]];
               Sample.response [[Sample.row 2 Sample.two];
                                [Sample.row 3 Sample.half]]] 1 false)
    as (Hst & Hlen & Hblock); [reflexivity | reflexivity |].
  split; [exact Hst|]. split; [exact Hlen|].
  apply Hblock; [lia | reflexivity | vm_compute; lia].
Defined.

(** C6 fails as stated: partials with one and with two blocks are merged
    with a Success status, not rejected with an error. *)
Lemma merge_uneven_not_rejected :
  let ps := [Sample.response [[Sample.row 1 Sample.one]];
             Sample.response [[Sample.row 2 Sample.two];
                              [Sample.row 3 Sample.half]]] in
  Spec.uneven ps = true /\
  _do_merge ps 1 false
  = (success_status,
     [Sample.block [Sample.row 1 Sample.one];
      Sample.block [Sample.row 3 Sample.half]]) /\
  error_code (_do_merge ps 1 false).1 = SUCCESS.
Proof. vm_compute. repeat split; reflexivity. Qed.

(** ** Rows with a NaN distance *)

Lemma Sorted_snoc {A} (R : A -> A -> Prop) l x :
  Sorted R l -> (forall y, last l = Some y -> R y x) -> Sorted R (l ++ [x]).
Proof.
  induction 1 as [|a l Hl IH Ha]; intros Hlast; simpl.
  - repeat constructor.
  - constructor.
    + apply IH. intros y Hy. apply Hlast.
      destruct l; [discriminate | exact Hy].
    + destruct Ha as [|b l' Hab]; simpl.
      * constructor. now apply Hlast.
      * now constructor.
Qed.

Lemma Sorted_rev {A} (R : A -> A -> Prop) l :
  Sorted R l -> Sorted (fun a b => R b a) (rev l).
Proof.
  induction 1 as [|a l Hl IH Ha]; simpl; [constructor|].
  apply Sorted_snoc; [exact IH|]. intros y Hy.
  destruct Ha as [|b l' Hab]; simpl in Hy; [discriminate|].
  rewrite last_snoc in Hy. inversion Hy; subst. exact Hab.
Qed.

Lemma no_inversion_Sorted reverse rows :
  Spec.no_inversion reverse rows = true ->
  Sorted (fun a b => Spec.out_of_order reverse a b = false) rows.
Proof.
  induction rows as [|a [|b rows] IH]; intros H.
  - constructor.
  - repeat constructor.
  - cbn [Spec.no_inversion] in H. apply andb_true_iff in H as [Hab H].
    constructor; [now apply IH|]. constructor. now apply negb_true_iff.
Qed.

(** A block without inversions is left as it is by [sorted]. *)
Lemma sorted_no_inversion reverse rows :
  Spec.no_inversion reverse rows = true ->
  Py.sorted distance reverse rows = rows.
Proof.
  intros H. apply no_inversion_Sorted in H. unfold Py.sorted.
  destruct reverse.
  - rewrite stable_sort_id; [apply rev_involutive|].
    apply Sorted_rev in H. exact H.
  - now apply stable_sort_id.
Qed.

(** C8 (as amended).  Rows with a NaN distance are not moved to the end:
    the sort compares with [<], which is false on NaN.  For a single
    partial, a block in which no row compares as belonging before its
    predecessor (as a NaN row never does) comes out as its first [K]
    rows in input order, under both metrics. *)
Theorem merge_keeps_nan_in_place resp K reverse p blk :
  0 <= K ->
  topk_query_result resp !! p = Some blk ->
  Spec.no_inversion reverse (query_result_arrays blk) = true ->
  (_do_merge [Response resp] K reverse).2 !! p
  = Some {| query_result_arrays :=
              firstn (Z.to_nat K) (query_result_arrays blk) |}.
Proof.
  intros HK Hblk Hord.
  rewrite do_merge_lookup; [|reflexivity|].
  - unfold Spec.column, Spec.folded_block. simpl. rewrite Hblk. simpl.
    now rewrite slice_to_nonneg, sorted_no_inversion.
  - unfold Spec.max_blocks. simpl. rewrite Nat.max_0_r.
    eapply lookup_lt_Some. exact Hblk.
Qed.

Lemma merge_keeps_nan_in_place_witness :
  (_do_merge
     [Sample.response [[Sample.row 1 Sample.nan; Sample.row 2 Sample.one;
                        Sample.row 3 Sample.half]]] 2 true).2 !! 0%nat
  = Some (Sample.block [Sample.row 1 Sample.nan; Sample.row 2 Sample.one]).
Proof.
  apply (merge_keeps_nan_in_place
           {| status := success_status;
              topk_query_result :=
                [Sample.block [Sample.row 1 Sample.nan; Sample.row 2 Sample.one;
                               Sample.row 3 Sample.half]] |}
           2 true 0
           (Sample.block [Sample.row 1 Sample.nan; Sample.row 2 Sample.one;
                          Sample.row 3 Sample.half]));
    [lia | reflexivity | reflexivity].
Defined.

(** C8 fails as stated: a NaN row ahead of a row at distance 1.0 stays
    first in the output block, for L2 and for IP. *)
Lemma merge_nan_not_last :
  let ps := [Sample.response [[Sample.row 1 Sample.nan;
                               Sample.row 2 Sample.one]]] in
  (_do_merge ps 2 false).2
  = [Sample.block [Sample.row 1 Sample.nan; Sample.row 2 Sample.one]] /\
  (_do_merge ps 2 true).2
  = [Sample.block [Sample.row 1 Sample.nan; Sample.row 2 Sample.one]] /\
  Spec.nan_last [Sample.row 1 Sample.nan; Sample.row 2 Sample.one] = false.
Proof. vm_compute. repeat split; reflexivity. Qed.

(** ** The request handler: validation, lookup and cache *)

Lemma Search_valid b self request :
  0 < topk request <= 2048 -> 0 < nprobe request <= 2048 ->
  Search b self request
  = match
      match table_meta self !! table_name request with
      | Some meta => (Returned meta, self)
      | None =>
          let self1 := log [describe_table_call (table_name request)] self in
          let '(st, info) := describe_table b (table_name request) in
          if negb (OK st)
          then (Raised (TableNotFoundError (table_name request)), self1)
          else (Returned info, cache (table_name request) info self1)
      end
    with
    | (Raised e, self1) => (Raised e, self1)
    | (Returned meta, self1) =>
        let '((st, results), self2) :=
          _do_query b self1 (table_name request) meta
            (query_record_array request) (topk request) (nprobe request)
            (query_range_array request) in
        (Returned
           {| status :=
                {| error_code := error_code st; reason := reason st |};
              topk_query_result := results |}, self2)
    end.
Proof.
  intros HK Hn. unfold Search, MAX_NPROBE, MAX_TOPK.
  destruct (Z.gtb_spec (nprobe request) 2048); [lia|].
  destruct (Z.leb_spec (nprobe request) 0); [lia|].
  destruct (Z.gtb_spec (topk request) 2048); [lia|].
  destruct (Z.leb_spec (topk request) 0); [lia|].
  reflexivity.
Qed.

(** C4.  A request whose K is outside 0 < K <= 2048 or whose nprobe is
    outside 0 < nprobe <= 2048 ends with an InvalidArgument error, and
    the handler is left as it was: nothing is cached and no call
    (describe_table, routing, search_vectors_in_files) is issued. *)
Theorem Search_rejects_bounds b self request :
  ~ (0 < topk request <= 2048) \/ ~ (0 < nprobe request <= 2048) ->
  exists e,
    Search b self request = (Raised e, self) /\
    error_kind e = InvalidArgument /\
    calls (Search b self request).2 = calls self.
Proof.
  intros Hbad. unfold Search, MAX_NPROBE, MAX_TOPK.
  destruct (Z.gtb_spec (nprobe request) 2048);
    destruct (Z.leb_spec (nprobe request) 0); simpl;
    try (eexists; repeat split; reflexivity).
  destruct (Z.gtb_spec (topk request) 2048);
    destruct (Z.leb_spec (topk request) 0); simpl;
    try (eexists; repeat split; reflexivity).
  lia.
Qed.

Lemma Search_rejects_bounds_witness :
  (~ (0 < topk (Sample.request 0 16) <= 2048) \/
   ~ (0 < nprobe (Sample.request 0 16) <= 2048)) /\
  exists e,
    Search (Sample.backend success_status Sample.one_node
              (Sample.response [[]])) Sample.fresh (Sample.request 0 16)
    = (Raised e, Sample.fresh) /\
    error_kind e = InvalidArgument.
Proof.
  assert (H : ~ (0 < topk (Sample.request 0 16) <= 2048) \/
              ~ (0 < nprobe (Sample.request 0 16) <= 2048))
    by (left; simpl; lia).
  split; [exact H|].
  destruct (Search_rejects_bounds
              (Sample.backend success_status Sample.one_node
                 (Sample.response [[]])) Sample.fresh (Sample.request 0 16) H)
    as (e & Heq & Hkind & _).
  exists e. split; [exact Heq | exact Hkind].
Defined.

(** C5 (as amended).  A request that passes the bounds check, on a table
    whose descriptor is not cached and whose describe_table lookup
    returns a non-OK status, fails with NotFound; the lookup is the only
    call issued: no routing, no sub-query. *)
Theorem Search_unknown_table b self request :
  0 < topk request <= 2048 -> 0 < nprobe request <= 2048 ->
  table_meta self !! table_name request = None ->
  OK (describe_table b (table_name request)).1 = false ->
  Search b self request
  = (Raised (TableNotFoundError (table_name request)),
     log [describe_table_call (table_name request)] self) /\
  error_kind (TableNotFoundError (table_name request)) = NotFound /\
  calls (Search b self request).2
  = calls self ++ [describe_table_call (table_name request)] /\
  table_meta (Search b self request).2 = table_meta self.
Proof.
  intros HK Hn Hmiss Hfail. rewrite Search_valid by assumption.
  rewrite Hmiss. destruct (describe_table b (table_name request)) as [st info].
  simpl in *. rewrite Hfail. simpl. auto.
Qed.

Lemma Search_unknown_table_witness :
  Search (Sample.backend Sample.unavailable Sample.one_node
            (Sample.response [[]])) Sample.fresh (Sample.request 1 16)
  = (Raised (TableNotFoundError "t"),
     log [describe_table_call "t"] Sample.fresh).
Proof.
  apply (Search_unknown_table
           (Sample.backend Sample.unavailable Sample.one_node
              (Sample.response [[]])) Sample.fresh (Sample.request 1 16));
    [simpl; lia | simpl; lia | reflexivity | reflexivity].
Defined.

(** C5 fails as stated: on such a table a request with K = 0 fails the
    bounds check first and ends with InvalidArgument, not NotFound. *)
Lemma Search_unknown_table_invalid_topk :
  let b := Sample.backend Sample.unavailable Sample.one_node
             (Sample.response [[]]) in
  table_meta Sample.fresh !! table_name (Sample.request 0 16) = None /\
  OK (describe_table b (table_name (Sample.request 0 16))).1 = false /\
  Search b Sample.fresh (Sample.request 0 16)
  = (Raised (InvalidTopKError 0), Sample.fresh) /\
  error_kind (InvalidTopKError 0) <> NotFound.
Proof. repeat split; try reflexivity. discriminate. Qed.

Lemma do_query_table_meta b self name meta vectors K n ranges :
  table_meta (_do_query b self name meta vectors K n ranges).2
  = table_meta self.
Proof. reflexivity. Qed.

(** C10.  [Search] changes the descriptor cache in one case only: a miss
    whose describe_table lookup succeeds, which adds the looked-up
    descriptor under the table's name.  When the lookup fails the cache
    is left as it was, and an entry already present is neither
    overwritten nor removed. *)
Theorem Search_cache_frame b self request :
  (table_meta (Search b self request).2 = table_meta self \/
   (table_meta self !! table_name request = None /\
    OK (describe_table b (table_name request)).1 = true /\
    table_meta (Search b self request).2
    = <[table_name request := (describe_table b (table_name request)).2]>
        (table_meta self))) /\
  (OK (describe_table b (table_name request)).1 = false ->
   table_meta (Search b self request).2 = table_meta self) /\
  (forall name meta,
     table_meta self !! name = Some meta ->
     table_meta (Search b self request).2 !! name = Some meta).
Proof.
  assert (Hcases :
    table_meta (Search b self request).2 = table_meta self \/
    (table_meta self !! table_name request = None /\
     OK (describe_table b (table_name request)).1 = true /\
     table_meta (Search b self request).2
     = <[table_name request := (describe_table b (table_name request)).2]>
         (table_meta self))).
  { unfold Search.
    destruct ((nprobe request >? MAX_NPROBE) || (nprobe request <=? 0));
      [now left|].
    destruct ((topk request >? MAX_TOPK) || (topk request <=? 0));
      [now left|].
    destruct (table_meta self !! table_name request) as [meta|] eqn:Hget.
    - left. unfold _do_query. now destruct (_do_merge _ _ _).
    - destruct (describe_table b (table_name request)) as [st info].
      simpl. destruct (OK st) eqn:Hok; simpl; [right | now left].
      split; [reflexivity|]. split; [reflexivity|].
      unfold _do_query. now destruct (_do_merge _ _ _). }
  split; [exact Hcases|]. split.
  - intros Hfail. destruct Hcases as [H|(_ & Hok & _)]; [exact H|].
    rewrite Hok in Hfail. discriminate.
  - intros name meta Hget. destruct Hcases as [->|(Hmiss & _ & ->)];
      [exact Hget|].
    rewrite lookup_insert_ne; [exact Hget|]. intros <-.
    rewrite Hmiss in Hget. discriminate.
Qed.

(** ** The request handler: a successful search *)

Lemma do_query_merge b self request meta :
  (_do_query b self (table_name request) meta (query_record_array request)
     (topk request) (nprobe request) (query_range_array request)).1
  = _do_merge (completion b (request_answers b request)) (topk request)
      (MetricType_eqb (metric_type meta) IP).
Proof.
  unfold _do_query, request_answers, request_plan.
  destruct (query_range_array request); reflexivity.
Qed.

(** What a returned search is made of. *)
Lemma Search_returned b self request resp self' :
  Search b self request = (Returned resp, self') ->
  0 < topk request <= 2048 /\ 0 < nprobe request <= 2048 /\
  (status resp, topk_query_result resp)
  = (let r := _do_merge (completion b (request_answers b request))
                (topk request)
                (MetricType_eqb
                   (metric_type (request_meta b self request)) IP) in
     ({| error_code := error_code r.1; reason := reason r.1 |}, r.2)).
Proof.
  intros Hret.
  assert (HK : 0 < topk request <= 2048).
  { unfold Search, MAX_NPROBE, MAX_TOPK in Hret.
    destruct ((nprobe request >? 2048) || (nprobe request <=? 0));
      [discriminate|].
    destruct (Z.gtb_spec (topk request) 2048); [discriminate|].
    destruct (Z.leb_spec (topk request) 0); [discriminate|]. lia. }
  assert (Hn : 0 < nprobe request <= 2048).
  { unfold Search, MAX_NPROBE in Hret.
    destruct (Z.gtb_spec (nprobe request) 2048); [discriminate|].
    destruct (Z.leb_spec (nprobe request) 0); [discriminate|]. lia. }
  split; [exact HK|]. split; [exact Hn|].
  rewrite Search_valid in Hret by assumption.
  unfold request_meta.
  destruct (table_meta self !! table_name request) as [meta|].
  - rewrite <- do_query_merge with (self := self).
    destruct (_do_query _ _ _ _ _ _ _ _) as [[st results] self2].
    now inversion Hret.
  - destruct (describe_table b (table_name request)) as [st0 info].
    cbv beta iota zeta in Hret. cbn [snd].
    destruct (OK st0); cbn [negb] in Hret; cbv beta iota in Hret;
      [|discriminate].
    rewrite <- do_query_merge
      with (self := cache (table_name request) info
                      (log [describe_table_call (table_name request)] self)).
    destruct (_do_query _ _ _ _ _ _ _ _) as [[st results] self2].
    now inversion Hret.
Qed.

Lemma forallb_Permutation {A} (f : A -> bool) l l' :
  Permutation l' l -> forallb f l = true -> forallb f l' = true.
Proof.
  intros Hperm. rewrite !forallb_forall. intros H x Hx. apply H.
  eapply Permutation_in; [exact Hperm | exact Hx].
Qed.

Lemma StronglySorted_firstn {A} (R : A -> A -> Prop) n l :
  StronglySorted R l -> StronglySorted R (firstn n l).
Proof.
  intros Hs. rewrite <- (firstn_skipn n l) in Hs.
  now apply StronglySorted_app_1_l in Hs.
Qed.

Lemma merged_block_length K r blocks :
  0 <= K -> Z.of_nat (length (Spec.merged_block K r blocks)) <= K.
Proof.
  intros HK. unfold Spec.merged_block. rewrite length_firstn. lia.
Qed.

Lemma merged_block_sorted K r blocks :
  forallb Spec.rows_nan_free blocks = true ->
  StronglySorted (Spec.in_order r) (Spec.merged_block K r blocks).
Proof.
  intros Hfree. apply StronglySorted_firstn.
  apply sorted_stably_sorted. now rewrite rows_nan_free_concat.
Qed.

Lemma column_all_empty p ps :
  forallb Spec.all_empty ps = true -> concat (Spec.column p ps) = [].
Proof.
  unfold Spec.column.
  induction ps as [|x ps IH]; simpl; [reflexivity|]. intros Hps.
  apply andb_true_iff in Hps as [Hx Hps].
  destruct x as [resp|]; simpl in *; [|now apply IH].
  destruct (topk_query_result resp !! p) as [blk|] eqn:Hb; simpl;
    [|now apply IH].
  rewrite forallb_forall in Hx.
  assert (Hin : In blk (topk_query_result resp))
    by (apply list_elem_of_In; eapply list_elem_of_lookup_2; exact Hb).
  apply Hx in Hin. destruct (query_result_arrays blk); [|discriminate].
  now apply IH.
Qed.

(** The merge of a non-empty list of NaN-free partials that each hold
    [nq] blocks. *)
Lemma do_merge_uniform K r nq ps :
  0 <= K -> (0 < length ps)%nat ->
  forallb (Spec.holds nq) ps = true ->
  forallb Spec.nan_free ps = true ->
  _do_merge ps K r
  = (success_status,
     map (fun q => {| query_result_arrays :=
                        Spec.merged_block K r (Spec.column q ps) |})
       (seq 0 nq)).
Proof.
  intros HK Hne Hholds Hfree.
  rewrite do_merge_responses by now apply holds_is_response with nq.
  rewrite (max_blocks_holds nq) by assumption.
  f_equal. apply map_ext. intros q.
  now rewrite folded_block_merged by (auto using column_nan_free).
Qed.

(** C2 (as amended).  A search that returns Success, whose plan is not
    empty and whose sub-query answers are responses that each hold one
    block per query vector, with no NaN distance, returns exactly [nq]
    blocks, the block at position [p] being the merge of the answers'
    blocks at [p]; each block has at most K rows, and its distances are
    non-decreasing for L2 and non-increasing for IP.  When moreover every
    block of every answer is empty, the [nq] blocks are empty. *)
Theorem Search_success_blocks b self request resp self' :
  Search b self request = (Returned resp, self') ->
  error_code (status resp) = SUCCESS ->
  (0 < length (request_answers b request))%nat ->
  forallb (Spec.holds (length (query_record_array request)))
    (request_answers b request) = true ->
  forallb Spec.nan_free (request_answers b request) = true ->
  let reverse :=
    MetricType_eqb (metric_type (request_meta b self request)) IP in
  length (topk_query_result resp) = length (query_record_array request) /\
  (forall p, (p < length (query_record_array request))%nat ->
     topk_query_result resp !! p
     = Some {| query_result_arrays :=
                 Spec.merged_block (topk request) reverse
                   (Spec.column p
                      (completion b (request_answers b request))) |}) /\
  Forall (fun blk =>
            Z.of_nat (length (query_result_arrays blk)) <= topk request /\
            StronglySorted (Spec.in_order reverse) (query_result_arrays blk))
    (topk_query_result resp) /\
  (forallb Spec.all_empty (request_answers b request) = true ->
   Forall (fun blk => query_result_arrays blk = []) (topk_query_result resp)).
Proof.
  intros Hret _ Hne Hholds Hfree reverse.
  destruct (Search_returned _ _ _ _ _ Hret) as (HK & _ & Heq).
  pose proof (completion_perm b (request_answers b request)) as Hperm.
  set (arrived := completion b (request_answers b request)) in *.
  assert (Hne' : (0 < length arrived)%nat)
    by (rewrite (Permutation_length Hperm); exact Hne).
  pose proof (forallb_Permutation _ _ _ Hperm Hholds) as Hholds'.
  pose proof (forallb_Permutation _ _ _ Hperm Hfree) as Hfree'.
  fold reverse in Heq.
  rewrite (do_merge_uniform (topk request) reverse
             (length (query_record_array request)) arrived) in Heq
    by (lia || assumption).
  simpl in Heq. inversion Heq as [[Hst Hres]]. clear Heq Hst.
  rewrite Hres. clear Hres.
  split; [now rewrite length_map, length_seq|]. split; [|split].
  - intros p Hp. now rewrite list_lookup_fmap, lookup_seq_lt.
  - apply List.Forall_forall. intros blk Hblk.
    apply in_map_iff in Hblk as (q & <- & _). simpl. split.
    + apply merged_block_length. lia.
    + apply merged_block_sorted. now apply column_nan_free.
  - intros Hempty. apply List.Forall_forall. intros blk Hblk.
    apply in_map_iff in Hblk as (q & <- & _). simpl.
    unfold Spec.merged_block.
    rewrite column_all_empty
      by exact (forallb_Permutation _ _ _ Hperm Hempty).
    now destruct reverse, (Z.to_nat (topk request)).
Qed.

Lemma Search_success_blocks_witness :
  let b := Sample.backend success_status Sample.one_node
             (Sample.response [[Sample.row 1 Sample.one;
                                Sample.row 2 Sample.half]]) in
  topk_query_result
    match (Search b Sample.fresh (Sample.request 1 16)).1 with
    | Returned resp => resp
    | Raised _ => {| status := success_status; topk_query_result := [] |}
    end !! 0%nat
  = Some (Sample.block [Sample.row 2 Sample.half]).
Proof.
  intros b.
  destruct (Search b Sample.fresh (Sample.request 1 16))
    as [[resp|e] self'] eqn:Hret; [|vm_compute in Hret; discriminate].
  destruct (Search_success_blocks b Sample.fresh (Sample.request 1 16)
              resp self' Hret) as (_ & Hblock & _);
    [ vm_compute in Hret; inversion Hret; reflexivity
    | simpl; lia | reflexivity | reflexivity | ].
  cbn [fst]. rewrite (Hblock 0%nat) by (simpl; lia). reflexivity.
Defined.

(** C2 fails as stated.  With an empty routing plan a search for one
    query vector returns Success with no block at all; a block holding a
    NaN distance is returned out of order; and the answer of a backend
    that holds two blocks for one query vector is returned as two
    blocks. *)
Lemma Search_success_blocks_fails :
  (let b := Sample.backend success_status [] (Sample.response [[]]) in
   length (query_record_array (Sample.request 1 16)) = 1%nat /\
   (Search b Sample.fresh (Sample.request 1 16)).1
   = Returned {| status := success_status; topk_query_result := [] |}) /\
  (let b := Sample.backend success_status Sample.one_node
              (Sample.response [[Sample.row 1 Sample.nan;
                                 Sample.row 2 Sample.one]]) in
   (Search b Sample.fresh (Sample.request 2 16)).1
   = Returned {| status := success_status;
                 topk_query_result :=
                   [Sample.block [Sample.row 1 Sample.nan;
                                  Sample.row 2 Sample.one]] |} /\
   ~ StronglySorted (Spec.in_order false)
       [Sample.row 1 Sample.nan; Sample.row 2 Sample.one]) /\
  (let b := Sample.backend success_status Sample.one_node
              (Sample.response [[Sample.row 1 Sample.one];
                                [Sample.row 2 Sample.two]]) in
   (Search b Sample.fresh (Sample.request 2 16)).1
   = Returned {| status := success_status;
                 topk_query_result :=
                   [Sample.block [Sample.row 1 Sample.one];
                    Sample.block [Sample.row 2 Sample.two]] |}).
Proof.
  split; [|split].
  - split; reflexivity.
  - split; [vm_compute; reflexivity|].
    intros Hs. inversion Hs as [|? ? _ Hhd]; subst.
    apply Forall_cons_1 in Hhd as [Hhd _]. vm_compute in Hhd. discriminate.
  - vm_compute. reflexivity.
Qed.

(** ** Merging in groups *)

Section GroupedTopK.
Context {A : Type} (lt : A -> A -> bool).
Hypothesis lt_asym : forall x y, lt x y = true -> lt y x = false.
Hypothesis lt_trans :
  forall x y z, lt x y = true -> lt y z = true -> lt x z = true.
Hypothesis lt_ntrans :
  forall x y z, lt x y = false -> lt y z = false -> lt x z = false.

Lemma firstn_smerge_r n : forall m s t,
  (n <= m)%nat ->
  firstn n (Order.smerge lt s (firstn m t))
  = firstn n (Order.smerge lt s t).
Proof.
  induction n as [|n IHn]; intros m s t Hnm; [reflexivity|].
  destruct m as [|m]; [lia|].
  destruct s as [|x s].
  - rewrite !smerge_nil_l, firstn_firstn. f_equal. lia.
  - destruct t as [|y t]; [reflexivity|].
    cbn [firstn]. rewrite !smerge_cons. destruct (lt y x).
    + cbn [firstn]. f_equal. apply IHn. lia.
    + cbn [firstn]. f_equal.
      change (y :: firstn m t) with (firstn (S m) (y :: t)).
      apply IHn. lia.
Qed.

(** The top [n] of the concatenation is the top [n] of the tops [n] of
    its parts. *)
Lemma grouped_topk n (parts : list (list A)) :
  firstn n (Py.stable_sort lt
              (concat (map (fun c => firstn n (Py.stable_sort lt c)) parts)))
  = firstn n (Py.stable_sort lt (concat parts)).
Proof.
  induction parts as [|c parts IH]; [reflexivity|].
  cbn [map concat]. rewrite !(stable_sort_app lt lt_trans lt_ntrans).
  rewrite (stable_sort_id lt (firstn n _))
    by apply Sorted_firstn, (stable_sort_Sorted lt lt_asym).
  rewrite firstn_smerge by lia.
  rewrite <- (firstn_smerge_r n n) by lia.
  rewrite IH. now rewrite firstn_smerge_r by lia.
Qed.

End GroupedTopK.

Lemma concat_map_concat {A} (l : list (list (list A))) :
  concat (map (@concat A) l) = concat (concat l).
Proof.
  induction l as [|x l IH]; simpl; [reflexivity|].
  now rewrite concat_app, IH.
Qed.

Lemma merged_block_nan_free K r blocks :
  forallb Spec.rows_nan_free blocks = true ->
  Spec.rows_nan_free (Spec.merged_block K r blocks) = true.
Proof.
  intros Hfree. unfold Spec.merged_block.
  rewrite sorted_nan_free by now rewrite rows_nan_free_concat.
  apply topk_nan_free. now rewrite rows_nan_free_concat.
Qed.

(** Merging the merged blocks of groups of blocks is merging all the
    blocks. *)
Lemma merged_block_groups K r (groups : list (list (list QueryResult))) :
  forallb (forallb Spec.rows_nan_free) groups = true ->
  Spec.merged_block K r (map (Spec.merged_block K r) groups)
  = Spec.merged_block K r (concat groups).
Proof.
  intros Hfree. unfold Spec.merged_block at 1 3.
  assert (Hall : forallb Spec.rows_nan_free (concat groups) = true).
  { rewrite forallb_forall in *. intros b Hb.
    apply in_concat in Hb as (g & Hg & Hb).
    specialize (Hfree g Hg). rewrite forallb_forall in Hfree. auto. }
  assert (Hmerged :
    forallb Spec.rows_nan_free (map (Spec.merged_block K r) groups) = true).
  { rewrite forallb_forall in *. intros b Hb.
    apply in_map_iff in Hb as (g & <- & Hg).
    apply merged_block_nan_free. auto. }
  rewrite !sorted_nan_free by now rewrite rows_nan_free_concat.
  rewrite <- concat_map_concat.
  rewrite <- (grouped_topk (Order.row_lt r) (row_lt_asym r)
                (row_lt_trans r) (row_lt_ntrans r) _
                (map (@concat QueryResult) groups)).
  rewrite !map_map. do 3 f_equal. apply map_ext_in. intros g Hg.
  unfold Spec.merged_block. rewrite sorted_nan_free; [reflexivity|].
  rewrite rows_nan_free_concat. rewrite forallb_forall in Hfree. auto.
Qed.

Lemma folded_block_nil K r : Spec.folded_block K r [] = [].
Proof. reflexivity. Qed.

Lemma is_response_concat (groups : list (list Partial)) g :
  forallb Spec.is_response (concat groups) = true -> In g groups ->
  forallb Spec.is_response g = true.
Proof.
  rewrite !forallb_forall. intros H Hg x Hx. apply H.
  apply in_concat. eauto.
Qed.

Lemma nan_free_concat (groups : list (list Partial)) g :
  forallb Spec.nan_free (concat groups) = true -> In g groups ->
  forallb Spec.nan_free g = true.
Proof.
  rewrite !forallb_forall. intros H Hg x Hx. apply H.
  apply in_concat. eauto.
Qed.

Lemma block_at_merge_group K r g q :
  forallb Spec.is_response g = true ->
  Spec.block_at q (merge_group K r g)
  = if decide (q < Spec.max_blocks g)%nat
    then Some (Spec.folded_block K r (Spec.column q g)) else None.
Proof.
  intros Hg. unfold merge_group, Spec.as_partial.
  rewrite do_merge_responses by exact Hg. cbn [Spec.block_at snd
    topk_query_result].
  rewrite list_lookup_fmap. destruct (decide (q < Spec.max_blocks g)%nat).
  - now rewrite lookup_seq_lt.
  - now rewrite lookup_seq_ge by lia.
Qed.

Lemma blocks_of_merge_group K r g :
  forallb Spec.is_response g = true ->
  Spec.blocks_of (merge_group K r g) = Spec.max_blocks g.
Proof.
  intros Hg. unfold merge_group, Spec.as_partial.
  rewrite do_merge_responses by exact Hg. simpl.
  now rewrite length_map, length_seq.
Qed.

Lemma max_blocks_app ps1 ps2 :
  Spec.max_blocks (ps1 ++ ps2)
  = Nat.max (Spec.max_blocks ps1) (Spec.max_blocks ps2).
Proof.
  unfold Spec.max_blocks. induction ps1 as [|x ps1 IH]; simpl;
    [reflexivity|].
  rewrite IH. lia.
Qed.

Lemma max_blocks_groups K r (groups : list (list Partial)) :
  forallb Spec.is_response (concat groups) = true ->
  Spec.max_blocks (map (merge_group K r) groups)
  = Spec.max_blocks (concat groups).
Proof.
  induction groups as [|g groups IH]; intros H; [reflexivity|].
  cbn [map concat]. rewrite max_blocks_app. rewrite <- IH.
  - unfold Spec.max_blocks at 1. cbn [map foldr].
    rewrite blocks_of_merge_group; [reflexivity|].
    apply (is_response_concat (g :: groups)); [exact H | now left].
  - simpl in H. rewrite forallb_app in H.
    now apply andb_true_iff in H as [_ H].
Qed.

Lemma column_app q ps1 ps2 :
  Spec.column q (ps1 ++ ps2) = Spec.column q ps1 ++ Spec.column q ps2.
Proof. apply omap_app. Qed.

Lemma column_concat q (groups : list (list Partial)) :
  Spec.column q (concat groups) = concat (map (Spec.column q) groups).
Proof.
  induction groups as [|g groups IH]; simpl; [reflexivity|].
  now rewrite column_app, IH.
Qed.

Lemma concat_column_groups K r q (groups : list (list Partial)) :
  forallb Spec.is_response (concat groups) = true ->
  concat (Spec.column q (map (merge_group K r) groups))
  = concat (map (fun g => Spec.folded_block K r (Spec.column q g)) groups).
Proof.
  induction groups as [|g groups IH]; intros H; [reflexivity|].
  assert (Hg : forallb Spec.is_response g = true)
    by (apply (is_response_concat (g :: groups)); [exact H | now left]).
  simpl in H. rewrite forallb_app in H. apply andb_true_iff in H as [_ H].
  cbn [map]. unfold Spec.column at 1. cbn [omap list_omap].
  rewrite block_at_merge_group by exact Hg.
  fold (Spec.column q (map (merge_group K r) groups)).
  destruct (decide (q < Spec.max_blocks g)%nat) as [Hq|Hq].
  - cbn [concat]. now rewrite IH.
  - assert (Spec.column q g = []) as ->.
    { destruct (Spec.column q g) eqn:E; [reflexivity|].
      exfalso. apply Hq, column_nonempty. now rewrite E. }
    rewrite folded_block_nil. cbn [concat app]. now apply IH.
Qed.

Lemma merged_block_concat_ext K r blocks1 blocks2 :
  concat blocks1 = concat blocks2 ->
  Spec.merged_block K r blocks1 = Spec.merged_block K r blocks2.
Proof. unfold Spec.merged_block. now intros ->. Qed.

Lemma merge_group_nan_free K r g :
  0 <= K ->
  forallb Spec.is_response g = true -> forallb Spec.nan_free g = true ->
  Spec.nan_free (merge_group K r g) = true.
Proof.
  intros HK Hg Hfree. unfold merge_group, Spec.as_partial.
  rewrite do_merge_responses by exact Hg. cbn [Spec.nan_free snd
    topk_query_result].
  rewrite forallb_forall. intros blk Hblk.
  apply in_map_iff in Hblk as (q & <- & _). cbn [query_result_arrays].
  rewrite folded_block_merged by (auto using column_nan_free).
  apply merged_block_nan_free. now apply column_nan_free.
Qed.

(** Merging the merges of consecutive groups is merging all at once. *)
Lemma do_merge_groups K r (groups : list (list Partial)) :
  0 <= K ->
  forallb Spec.is_response (concat groups) = true ->
  forallb Spec.nan_free (concat groups) = true ->
  _do_merge (map (merge_group K r) groups) K r
  = _do_merge (concat groups) K r.
Proof.
  intros HK Hresp Hfree.
  assert (HG : forallb Spec.is_response (map (merge_group K r) groups)
               = true).
  { rewrite forallb_forall. intros x Hx.
    apply in_map_iff in Hx as (g & <- & _). reflexivity. }
  assert (HGfree : forallb Spec.nan_free (map (merge_group K r) groups)
                   = true).
  { rewrite forallb_forall. intros x Hx.
    apply in_map_iff in Hx as (g & <- & Hg).
    apply merge_group_nan_free;
      eauto using is_response_concat, nan_free_concat. }
  rewrite !do_merge_responses by assumption.
  rewrite max_blocks_groups by exact Hresp.
  f_equal. apply map_ext. intros q. f_equal.
  rewrite !folded_block_merged by (auto using column_nan_free).
  rewrite column_concat, <- merged_block_groups.
  - apply merged_block_concat_ext.
    rewrite concat_column_groups by exact Hresp.
    rewrite map_map. f_equal. apply map_ext_in. intros g Hg.
    apply folded_block_merged; [exact HK|].
    apply column_nan_free. eauto using nan_free_concat.
  - rewrite forallb_forall. intros c Hc.
    apply in_map_iff in Hc as (g & <- & Hg).
    apply column_nan_free. eauto using nan_free_concat.
Qed.

(** ** Merging in another order: equal modulo ties *)

Lemma lex_ltb_total a b :
  Order.lex_ltb a b = false -> Order.lex_ltb b a = false -> a = b.
Proof.
  destruct a as [[a1 a2] a3], b as [[b1 b2] b3]. unfold Order.lex_ltb.
  simpl. intros H1 H2.
  assert (a1 = b1) by bool_cases. subst.
  assert (a2 = b2) by bool_cases. subst.
  assert (a3 = b3) by bool_cases. now subst.
Qed.

Lemma lex_ltb_irrefl a : Order.lex_ltb a a = false.
Proof.
  destruct (Order.lex_ltb a a) eqn:E; [|reflexivity].
  pose proof (lex_ltb_asym a a E). congruence.
Qed.

Lemma sorted_keys_Permutation r l l' :
  Permutation l l' ->
  map Order.row_key (Py.stable_sort (Order.row_lt r) l)
  = map Order.row_key (Py.stable_sort (Order.row_lt r) l').
Proof.
  intros Hperm.
  assert (Hs : forall l0, StronglySorted (Order.kle r)
                 (map Order.row_key (Py.stable_sort (Order.row_lt r) l0))).
  { intros l0.
    apply (StronglySorted_fmap Order.row_key (Order.le (Order.row_lt r))).
    - intros x y Hxy. unfold Order.le, Order.row_lt in Hxy.
      unfold Order.kle, Order.row_key. now destruct r.
    - apply stable_sort_StronglySorted;
        [apply row_lt_asym | apply row_lt_ntrans]. }
  apply (StronglySorted_unique_strong (Order.kle r)); [|apply Hs..|].
  - intros a b _ _ Hab Hba. unfold Order.kle in *.
    destruct r; now apply lex_ltb_total.
  - apply Permutation_map.
    rewrite !stable_sort_Permutation. exact Hperm.
Qed.

Lemma same_key_same_distance a b :
  Py.is_nan (distance a) = false -> Py.is_nan (distance b) = false ->
  Order.row_key a = Order.row_key b -> Spec.same_distance a b.
Proof.
  intros Ha Hb Hkey. unfold Spec.same_distance, Spec.tied.
  rewrite !float_lt_fkey by assumption.
  unfold Order.row_key in Hkey. rewrite Hkey.
  now rewrite lex_ltb_irrefl.
Qed.

Lemma same_keys_Forall2 s1 : forall s2,
  Spec.rows_nan_free s1 = true -> Spec.rows_nan_free s2 = true ->
  map Order.row_key s1 = map Order.row_key s2 ->
  Forall2 Spec.same_distance s1 s2.
Proof.
  induction s1 as [|a s1 IH]; intros [|b s2] H1 H2 Hkeys;
    try discriminate; [constructor|].
  simpl in *. apply andb_true_iff in H1 as [Ha H1], H2 as [Hb H2].
  apply negb_true_iff in Ha, Hb. inversion Hkeys.
  constructor; [now apply same_key_same_distance | now apply IH].
Qed.

Lemma merged_block_tie K r blocks blocks' :
  Permutation (concat blocks) (concat blocks') ->
  forallb Spec.rows_nan_free blocks = true ->
  Forall2 Spec.same_distance (Spec.merged_block K r blocks)
    (Spec.merged_block K r blocks').
Proof.
  intros Hperm Hfree.
  assert (Hfree1 : Spec.rows_nan_free (concat blocks) = true)
    by now rewrite rows_nan_free_concat.
  assert (Hfree2 : Spec.rows_nan_free (concat blocks') = true).
  { revert Hfree1. apply rows_nan_free_incl. intros x Hx.
    eapply Permutation_in; [symmetry; exact Hperm | exact Hx]. }
  unfold Spec.merged_block. rewrite !sorted_nan_free by assumption.
  apply same_keys_Forall2.
  - now apply topk_nan_free.
  - now apply topk_nan_free.
  - rewrite <- !firstn_map. f_equal. now apply sorted_keys_Permutation.
Qed.

Lemma column_Permutation q ps ps' :
  Permutation ps ps' ->
  Permutation (concat (Spec.column q ps)) (concat (Spec.column q ps')).
Proof.
  intros Hperm. unfold Spec.column.
  induction Hperm as [|x l l' _ IH|x y l|l l' l'' _ IH1 _ IH2]; simpl.
  - reflexivity.
  - destruct (Spec.block_at q x); simpl; [now apply Permutation_app_head|].
    exact IH.
  - destruct (Spec.block_at q x), (Spec.block_at q y); simpl;
      try reflexivity.
    rewrite !app_assoc. apply Permutation_app_tail, Permutation_app_comm.
  - now rewrite IH1.
Qed.

Lemma max_blocks_Permutation ps ps' :
  Permutation ps ps' -> Spec.max_blocks ps = Spec.max_blocks ps'.
Proof.
  unfold Spec.max_blocks.
  induction 1; simpl; lia.
Qed.

(** Merging the same partials in another order gives the same result
    modulo ties. *)
Lemma do_merge_tie_equal K r ps ps' :
  0 <= K -> Permutation ps ps' ->
  forallb Spec.is_response ps = true -> forallb Spec.nan_free ps = true ->
  Spec.tie_equal (_do_merge ps K r) (_do_merge ps' K r).
Proof.
  intros HK Hperm Hresp Hfree.
  pose proof (forallb_Permutation _ _ _ (Permutation_sym Hperm) Hresp)
    as Hresp'.
  pose proof (forallb_Permutation _ _ _ (Permutation_sym Hperm) Hfree)
    as Hfree'.
  rewrite !do_merge_responses by assumption.
  rewrite <- (max_blocks_Permutation ps ps' Hperm).
  split; [reflexivity|]. simpl.
  induction (seq 0 (Spec.max_blocks ps)) as [|q qs IH]; simpl;
    constructor; [|exact IH].
  simpl. rewrite !folded_block_merged by (auto using column_nan_free).
  apply merged_block_tie; [now apply column_Permutation|].
  now apply column_nan_free.
Qed.

(** C7 (as amended).  When no distance is NaN, merging is associative
    and commutative over response-shaped partials modulo the tie-break
    rule.  For every count [K >= 0] and every partition of the partials
    [ps] into groups: merging each group and then the group results is
    equal, modulo ties, to merging all partials at once, and equal to it
    outright when the groups are consecutive runs of [ps]; and the
    incremental fold the merger performs is, position by position, the
    concatenate-all, sort, truncate reference. *)
Theorem merge_partition K reverse (groups : list (list Partial)) ps :
  0 <= K ->
  forallb Spec.is_response ps = true ->
  forallb Spec.nan_free ps = true ->
  Permutation (concat groups) ps ->
  Spec.tie_equal
    (_do_merge (map (merge_group K reverse) groups) K reverse)
    (_do_merge ps K reverse) /\
  (concat groups = ps ->
   _do_merge (map (merge_group K reverse) groups) K reverse
   = _do_merge ps K reverse) /\
  _do_merge ps K reverse
  = (success_status,
     map (fun q => {| query_result_arrays :=
                        Spec.merged_block K reverse (Spec.column q ps) |})
       (seq 0 (Spec.max_blocks ps))).
Proof.
  intros HK Hresp Hfree Hperm.
  pose proof (forallb_Permutation _ _ _ Hperm Hresp) as Hresp'.
  pose proof (forallb_Permutation _ _ _ Hperm Hfree) as Hfree'.
  split; [|split].
  - rewrite do_merge_groups by assumption.
    now apply do_merge_tie_equal.
  - intros <-. now apply do_merge_groups.
  - rewrite do_merge_responses by exact Hresp.
    f_equal. apply map_ext. intros q.
    now rewrite folded_block_merged by (auto using column_nan_free).
Qed.

Lemma merge_partition_witness :
  let a := Sample.response [[Sample.row 1 Sample.two]] in
  let b := Sample.response [[Sample.row 2 Sample.half]] in
  let c := Sample.response [[Sample.row 3 Sample.one]] in
  _do_merge (map (merge_group 1 false) [[a]; [b; c]]) 1 false
  = _do_merge [a; b; c] 1 false /\
  _do_merge [a; b; c] 1 false
  = (success_status, [Sample.block [Sample.row 2 Sample.half]]).
Proof.
  intros a b c.
  destruct (merge_partition 1 false [[a]; [b; c]] [a; b; c])
    as (_ & Hgroups & Hfold);
    [lia | reflexivity | reflexivity | reflexivity |].
  split; [apply Hgroups; reflexivity | exact Hfold].
Defined.

(** C7 fails as stated: with a NaN distance the grouping changes the
    result beyond ties.  With K = 1 and L2, the partials [2.0], [NaN],
    [1.0] merge to the row at 1.0, but merging [2.0] with the merge of
    [NaN], [1.0] gives the row at 2.0. *)
Lemma merge_partition_nan_fails :
  let a := Sample.response [[Sample.row 1 Sample.two]] in
  let n := Sample.response [[Sample.row 2 Sample.nan]] in
  let c := Sample.response [[Sample.row 3 Sample.one]] in
  _do_merge [a; n; c] 1 false
  = (success_status, [Sample.block [Sample.row 3 Sample.one]]) /\
  _do_merge (map (merge_group 1 false) [[a]; [n; c]]) 1 false
  = (success_status, [Sample.block [Sample.row 1 Sample.two]]) /\
  ~ Spec.tie_equal
      (_do_merge (map (merge_group 1 false) [[a]; [n; c]]) 1 false)
      (_do_merge [a; n; c] 1 false).
Proof.
  intros a n c.
  assert (H1 : _do_merge [a; n; c] 1 false
               = (success_status, [Sample.block [Sample.row 3 Sample.one]]))
    by (vm_compute; reflexivity).
  assert (H2 : _do_merge (map (merge_group 1 false) [[a]; [n; c]]) 1 false
               = (success_status, [Sample.block [Sample.row 1 Sample.two]]))
    by (vm_compute; reflexivity).
  split; [exact H1|]. split; [exact H2|].
  rewrite H1, H2. intros [_ Hblocks]. simpl in Hblocks.
  apply Forall2_cons_1 in Hblocks as [Hrows _]. simpl in Hrows.
  apply Forall2_cons_1 in Hrows as [Hrow _].
  vm_compute in Hrow. discriminate.
Qed.

(** * Further properties of the merger *)

Lemma first_tuple_None ps :
  Spec.first_tuple ps = None -> forallb Spec.is_response ps = true.
Proof.
  induction ps as [|[resp|st pl] ps IH]; simpl; intros H;
    [reflexivity | now apply IH | discriminate].
Qed.

Lemma slice_to_In {A} K (l : list A) x : In x (Py.slice_to K l) -> In x l.
Proof. unfold Py.slice_to. destruct (0 <=? K); apply In_firstn. Qed.

Lemma step_In K r o b row :
  In row (default [] (Spec.step K r o b)) -> In row (default [] o ++ b).
Proof.
  unfold Spec.step. simpl. intros H. apply slice_to_In in H.
  eapply Permutation_in; [apply sorted_Permutation | exact H].
Qed.

Lemma fold_step_In K r blocks : forall o row,
  In row (default [] (fold_left (Spec.step K r) blocks o)) ->
  In row (default [] o) \/ In row (concat blocks).
Proof.
  induction blocks as [|b blocks IH]; intros o row H; simpl in *.
  - now left.
  - apply IH in H as [H|H].
    + apply step_In, in_app_or in H as [H|H]; [now left|].
      right. apply in_or_app. now left.
    + right. apply in_or_app. now right.
Qed.

(** The merger invents no row: a row of the output block at a position
    is a row of some partial's block at that position, whatever the
    distances, [K] and the metric. *)
Theorem merge_rows_from_input ps K reverse q blk row :
  (_do_merge ps K reverse).2 !! q = Some blk ->
  In row (query_result_arrays blk) ->
  In row (concat (Spec.column q ps)).
Proof.
  intros Hblk Hrow.
  destruct (Spec.first_tuple ps) as [st|] eqn:Hfirst.
  - destruct (first_tuple_split ps st Hfirst) as (pre & pl & post & -> & Hpre).
    rewrite do_merge_tuple in Hblk by exact Hpre. discriminate.
  - apply first_tuple_None in Hfirst.
    rewrite do_merge_responses in Hblk by exact Hfirst. simpl in Hblk.
    rewrite list_lookup_fmap in Hblk.
    destruct (seq 0 (Spec.max_blocks ps) !! q) as [q'|] eqn:Hq;
      [|discriminate].
    apply lookup_seq in Hq as [-> _]. simpl in Hblk.
    inversion Hblk; subst; clear Hblk. simpl in Hrow.
    apply fold_step_In in Hrow as [[]|Hrow]. exact Hrow.
Qed.

Lemma merge_rows_from_input_witness :
  In (Sample.row 2 Sample.one)
    (concat (Spec.column 0
               [Sample.response [[Sample.row 1 Sample.two]];
                Sample.response [[Sample.row 2 Sample.one]]])).
Proof.
  apply (merge_rows_from_input
           [Sample.response [[Sample.row 1 Sample.two]];
            Sample.response [[Sample.row 2 Sample.one]]] 1 false 0
           (Sample.block [Sample.row 2 Sample.one]));
    [reflexivity | simpl; left; reflexivity].
Defined.

Lemma slice_to_length {A} K (l : list A) :
  0 <= K -> length (Py.slice_to K l) = Nat.min (Z.to_nat K) (length l).
Proof.
  intros HK. rewrite slice_to_nonneg by exact HK. apply length_firstn.
Qed.

Lemma fold_step_length K r blocks : forall o,
  0 <= K ->
  length (default [] (fold_left (Spec.step K r) blocks o))
  = match blocks with
    | [] => length (default [] o)
    | _ => Nat.min (Z.to_nat K)
             (length (default [] o) + length (concat blocks))
    end.
Proof.
  induction blocks as [|b blocks IH]; intros o HK; [reflexivity|].
  cbn [fold_left]. rewrite IH by exact HK.
  assert (Hlen : length (default [] (Spec.step K r o b))
                 = Nat.min (Z.to_nat K) (length (default [] o) + length b)).
  { change (default [] (Spec.step K r o b))
      with (Py.slice_to K (Py.sorted distance r (default [] o ++ b))).
    rewrite slice_to_length by exact HK.
    rewrite (Permutation_length (sorted_Permutation distance r _)).
    now rewrite length_app. }
  rewrite Hlen. cbn [concat]. rewrite !length_app.
  destruct blocks as [|b' blocks]; [simpl; lia|].
  set (rest := length (concat (b' :: blocks))). lia.
Qed.

(** Each output block holds as many rows as its position offers, up to
    [K]: min(K, number of rows the partials hold at that position),
    whatever the distances. *)
Theorem merge_block_length ps K reverse q blk :
  0 <= K ->
  (_do_merge ps K reverse).2 !! q = Some blk ->
  length (query_result_arrays blk)
  = Nat.min (Z.to_nat K) (length (concat (Spec.column q ps))).
Proof.
  intros HK Hblk.
  destruct (Spec.first_tuple ps) as [st|] eqn:Hfirst.
  - destruct (first_tuple_split ps st Hfirst) as (pre & pl & post & -> & Hpre).
    rewrite do_merge_tuple in Hblk by exact Hpre. discriminate.
  - apply first_tuple_None in Hfirst.
    rewrite do_merge_responses in Hblk by exact Hfirst. simpl in Hblk.
    rewrite list_lookup_fmap in Hblk.
    destruct (seq 0 (Spec.max_blocks ps) !! q) as [q'|] eqn:Hq;
      [|discriminate].
    apply lookup_seq in Hq as [-> Hq]. simpl in Hblk.
    inversion Hblk; subst; clear Hblk. simpl.
    unfold Spec.folded_block. rewrite fold_step_length by exact HK.
    apply column_nonempty in Hq.
    destruct (Spec.column q ps); [congruence | reflexivity].
Qed.

Lemma merge_block_length_witness :
  length [Sample.row 3 Sample.two; Sample.row 2 Sample.one] = 2%nat.
Proof.
  apply (merge_block_length
           [Sample.response [[Sample.row 1 Sample.half]];
            Sample.response [[Sample.row 2 Sample.one;
                              Sample.row 3 Sample.two]]] 2 true 0
           (Sample.block [Sample.row 3 Sample.two; Sample.row 2 Sample.one]));
    [lia | vm_compute; reflexivity].
Defined.

Lemma merge_loop_with_status f K r ps :
  forall m : gmap nat (list QueryResult),
  merge_loop K r (map (Spec.with_status f) ps) m = merge_loop K r ps m.
Proof.
  induction ps as [|[resp|st pl] ps IH]; intros m; simpl;
    [reflexivity | apply IH | reflexivity].
Qed.

(** The merger never reads the status a response carries: replacing the
    statuses of the response-shaped partials, by errors or anything
    else, leaves the merged status and blocks unchanged. *)
Theorem merge_ignores_response_status f ps K reverse :
  _do_merge (map (Spec.with_status f) ps) K reverse = _do_merge ps K reverse.
Proof.
  unfold _do_merge. rewrite merge_loop_with_status.
  destruct ps; reflexivity.
Qed.

Lemma merge_loop_skip_empty K r pre st post :
  forall m : gmap nat (list QueryResult),
  merge_loop K r
    (pre ++ Response {| status := st; topk_query_result := [] |} :: post) m
  = merge_loop K r (pre ++ post) m.
Proof.
  induction pre as [|[resp|st' pl] pre IH]; intros m; simpl;
    [reflexivity | apply IH | reflexivity].
Qed.

Lemma sorted_items_empty : sorted_items ∅ = [].
Proof. unfold sorted_items. now rewrite map_to_list_empty. Qed.

(** A response that holds no block contributes nothing: wherever it
    stands among the partials, the merge is the merge of the others. *)
Theorem merge_skips_blockless_response pre st post K reverse :
  _do_merge
    (pre ++ Response {| status := st; topk_query_result := [] |} :: post)
    K reverse
  = _do_merge (pre ++ post) K reverse.
Proof.
  unfold _do_merge. rewrite merge_loop_skip_empty.
  destruct (pre ++ post) as [|x rest] eqn:Hrest.
  - simpl. rewrite sorted_items_empty.
    now destruct pre.
  - now destruct pre.
Qed.

Lemma do_merge_merged K r ps :
  0 <= K ->
  forallb Spec.is_response ps = true -> forallb Spec.nan_free ps = true ->
  _do_merge ps K r
  = (success_status,
     map (fun q => {| query_result_arrays :=
                        Spec.merged_block K r (Spec.column q ps) |})
       (seq 0 (Spec.max_blocks ps))).
Proof.
  intros HK Hresp Hfree. rewrite do_merge_responses by exact Hresp.
  f_equal. apply map_ext. intros q.
  now rewrite folded_block_merged by (auto using column_nan_free).
Qed.

(** Asking for fewer rows gives a prefix of asking for more: when no
    distance is NaN, the blocks merged with [K] are the first [K] rows of
    the blocks merged with any larger [K']. *)
Theorem merge_smaller_topk_prefix ps K K' reverse :
  0 <= K <= K' ->
  forallb Spec.is_response ps = true ->
  forallb Spec.nan_free ps = true ->
  (_do_merge ps K reverse).2
  = map (fun blk =>
           {| query_result_arrays :=
                firstn (Z.to_nat K) (query_result_arrays blk) |})
      (_do_merge ps K' reverse).2.
Proof.
  intros HK Hresp Hfree.
  rewrite !do_merge_merged by (lia || assumption). simpl.
  rewrite map_map. apply map_ext. intros q. simpl. f_equal.
  unfold Spec.merged_block. rewrite firstn_firstn. f_equal. lia.
Qed.

Lemma merge_smaller_topk_prefix_witness :
  (_do_merge [Sample.response [[Sample.row 1 Sample.two]];
              Sample.response [[Sample.row 2 Sample.one]]] 1 false).2
  = map (fun blk =>
           {| query_result_arrays :=
                firstn (Z.to_nat 1) (query_result_arrays blk) |})
      (_do_merge [Sample.response [[Sample.row 1 Sample.two]];
                  Sample.response [[Sample.row 2 Sample.one]]] 2 false).2.
Proof.
  apply (merge_smaller_topk_prefix
           [Sample.response [[Sample.row 1 Sample.two]];
            Sample.response [[Sample.row 2 Sample.one]]] 1 2 false);
    [lia | reflexivity | reflexivity].
Defined.

(** Merging is idempotent: when no distance is NaN, a merge result fed
    back to the merger as its only partial comes out unchanged. *)
Theorem merge_idempotent ps K reverse :
  0 <= K ->
  forallb Spec.is_response ps = true ->
  forallb Spec.nan_free ps = true ->
  _do_merge [merge_group K reverse ps] K reverse = _do_merge ps K reverse.
Proof.
  intros HK Hresp Hfree.
  pose proof (do_merge_groups K reverse [ps] HK) as H.
  simpl in H. rewrite app_nil_r in H. now apply H.
Qed.

Lemma merge_idempotent_witness :
  _do_merge
    [merge_group 1 false
       [Sample.response [[Sample.row 1 Sample.two]];
        Sample.response [[Sample.row 2 Sample.one]]]] 1 false
  = (success_status, [Sample.block [Sample.row 2 Sample.one]]).
Proof.
  rewrite (merge_idempotent
             [Sample.response [[Sample.row 1 Sample.two]];
              Sample.response [[Sample.row 2 Sample.one]]] 1 false);
    [reflexivity | lia | reflexivity | reflexivity].
Defined.

(** The merged block holds the best rows: when no distance is NaN, the
    rows the partials hold at a position split into the output block and
    the rows left out, and no row left out is better, in the metric's
    order, than a row of the block. *)
Theorem merge_block_best_rows ps K reverse q blk :
  0 <= K ->
  forallb Spec.is_response ps = true ->
  forallb Spec.nan_free ps = true ->
  (_do_merge ps K reverse).2 !! q = Some blk ->
  exists rest,
    Permutation (query_result_arrays blk ++ rest)
      (concat (Spec.column q ps)) /\
    forall a b, In a (query_result_arrays blk) -> In b rest ->
                Spec.in_order reverse a b.
Proof.
  intros HK Hresp Hfree Hblk.
  rewrite do_merge_merged in Hblk by assumption. simpl in Hblk.
  rewrite list_lookup_fmap in Hblk.
  destruct (seq 0 (Spec.max_blocks ps) !! q) as [q'|] eqn:Hq; [|discriminate].
  apply lookup_seq in Hq as [-> _]. simpl in Hblk.
  inversion Hblk; subst; clear Hblk. simpl.
  set (rows := concat (Spec.column q ps)).
  assert (Hrows : Spec.rows_nan_free rows = true)
    by (unfold rows; rewrite rows_nan_free_concat;
        now apply column_nan_free).
  destruct (sorted_stably_sorted reverse rows Hrows) as (Hperm & Hsorted & _).
  exists (skipn (Z.to_nat K) (Py.sorted distance reverse rows)).
  unfold Spec.merged_block. fold rows. split.
  - now rewrite firstn_skipn.
  - intros a b Ha Hb.
    rewrite <- (firstn_skipn (Z.to_nat K)) in Hsorted.
    eapply StronglySorted_app_1_elem_of; [exact Hsorted | |];
      now apply list_elem_of_In.
Qed.

Lemma merge_block_best_rows_witness :
  exists rest,
    Permutation ([Sample.row 2 Sample.one] ++ rest)
      (concat (Spec.column 0
                 [Sample.response [[Sample.row 1 Sample.two]];
                  Sample.response [[Sample.row 2 Sample.one]]])).
Proof.
  destruct (merge_block_best_rows
              [Sample.response [[Sample.row 1 Sample.two]];
               Sample.response [[Sample.row 2 Sample.one]]] 1 false 0
              (Sample.block [Sample.row 2 Sample.one]))
    as (rest & Hperm & _);
    [lia | reflexivity | reflexivity | reflexivity |].
  exists rest. exact Hperm.
Defined.

(** * Further properties of the request handler *)

Lemma do_query_calls b self request meta :
  calls (_do_query b self (table_name request) meta
           (query_record_array request) (topk request) (nprobe request)
           (query_range_array request)).2
  = calls self
    ++ routing_call (table_name request) (request_ranges b request)
    :: map (fun '(addr, params) =>
              search_vectors_in_files_call addr params (topk request)
                (nprobe request)) (request_plan b request).
Proof.
  unfold _do_query, request_plan, request_ranges, log. simpl.
  destruct (query_range_array request); now rewrite <- app_assoc.
Qed.

(** A search that returns has looked the table up only if it was not
    cached, then asked the router once, with the request's ranges, and
    issued one sub-query per entry of the plan, in plan order, with the
    request's K and nprobe unchanged. *)
Theorem Search_call_trace b self request resp self' :
  Search b self request = (Returned resp, self') ->
  calls self'
  = calls self
    ++ match table_meta self !! table_name request with
       | Some _ => []
       | None => [describe_table_call (table_name request)]
       end
    ++ routing_call (table_name request) (request_ranges b request)
    :: map (fun '(addr, params) =>
              search_vectors_in_files_call addr params (topk request)
                (nprobe request)) (request_plan b request).
Proof.
  intros Hret.
  destruct (Search_returned _ _ _ _ _ Hret) as (HK & Hn & _).
  rewrite Search_valid in Hret by assumption.
  destruct (table_meta self !! table_name request) as [meta|].
  - pose proof (do_query_calls b self request meta) as Hcalls.
    destruct (_do_query _ _ _ _ _ _ _ _) as [[st results] self2].
    inversion Hret; subst. exact Hcalls.
  - destruct (describe_table b (table_name request)) as [st0 info].
    cbv beta iota zeta in Hret.
    destruct (OK st0); cbn [negb] in Hret; cbv beta iota in Hret;
      [|discriminate].
    pose proof (do_query_calls b
                  (cache (table_name request) info
                     (log [describe_table_call (table_name request)] self))
                  request info) as Hcalls.
    destruct (_do_query _ _ _ _ _ _ _ _) as [[st results] self2].
    inversion Hret; subst. simpl in Hcalls. rewrite Hcalls.
    now rewrite <- app_assoc.
Qed.

Lemma Search_call_trace_witness :
  calls
    (Search (Sample.backend success_status Sample.one_node
               (Sample.response [[Sample.row 1 Sample.one]]))
       Sample.fresh (Sample.request 1 16)).2
  = [describe_table_call "t"; routing_call "t" None;
     search_vectors_in_files_call "10.0.0.1:19530"
       {| table_id := "t"; file_ids := ["1"; "2"] |} 1 16].
Proof.
  destruct (Search (Sample.backend success_status Sample.one_node
                      (Sample.response [[Sample.row 1 Sample.one]]))
              Sample.fresh (Sample.request 1 16))
    as [[resp|e] self'] eqn:Hret; [|vm_compute in Hret; discriminate].
  cbn [snd]. rewrite (Search_call_trace _ _ _ _ _ Hret). reflexivity.
Defined.

(** How a search can raise. *)
Lemma Search_raised b self request e self' :
  Search b self request = (Raised e, self') ->
  (e = InvalidArgumentError (nprobe request) /\
   ~ (0 < nprobe request <= 2048) /\ self' = self) \/
  (e = InvalidTopKError (topk request) /\
   0 < nprobe request <= 2048 /\ ~ (0 < topk request <= 2048) /\
   self' = self) \/
  (e = TableNotFoundError (table_name request) /\
   0 < nprobe request <= 2048 /\ 0 < topk request <= 2048 /\
   table_meta self !! table_name request = None /\
   OK (describe_table b (table_name request)).1 = false /\
   self' = log [describe_table_call (table_name request)] self).
Proof.
  intros Hret.
  destruct (Z_lt_le_dec 0 (nprobe request)) as [Hn1|Hn1];
    [destruct (Z_le_gt_dec (nprobe request) 2048) as [Hn2|Hn2]|].
  - destruct (Z_lt_le_dec 0 (topk request)) as [HK1|HK1];
      [destruct (Z_le_gt_dec (topk request) 2048) as [HK2|HK2]|].
    + right. right. rewrite Search_valid in Hret by lia.
      destruct (table_meta self !! table_name request) as [meta|].
      * destruct (_do_query _ _ _ _ _ _ _ _) as [[st results] self2].
        discriminate.
      * destruct (describe_table b (table_name request)) as [st0 info].
        cbv beta iota zeta in Hret. cbn [fst].
        destruct (OK st0); cbn [negb] in Hret; cbv beta iota in Hret.
        -- destruct (_do_query _ _ _ _ _ _ _ _) as [[st results] self2].
           discriminate.
        -- inversion Hret; subst. repeat split; lia || reflexivity.
    + right. left. unfold Search, MAX_NPROBE, MAX_TOPK in Hret.
      destruct (Z.gtb_spec (nprobe request) 2048); [lia|].
      destruct (Z.leb_spec (nprobe request) 0); [lia|].
      destruct (Z.gtb_spec (topk request) 2048); [|lia].
      simpl in Hret. inversion Hret; subst. repeat split; lia.
    + right. left. unfold Search, MAX_NPROBE, MAX_TOPK in Hret.
      destruct (Z.gtb_spec (nprobe request) 2048); [lia|].
      destruct (Z.leb_spec (nprobe request) 0); [lia|].
      destruct (Z.leb_spec (topk request) 0); [|lia].
      rewrite orb_true_r in Hret. simpl in Hret.
      inversion Hret; subst. repeat split; lia.
  - left. unfold Search, MAX_NPROBE in Hret.
    destruct (Z.gtb_spec (nprobe request) 2048); [|lia].
    simpl in Hret. inversion Hret; subst. repeat split; lia.
  - left. unfold Search, MAX_NPROBE in Hret.
    destruct (Z.leb_spec (nprobe request) 0); [|lia].
    rewrite orb_true_r in Hret. simpl in Hret.
    inversion Hret; subst. repeat split; lia.
Qed.

(** The bounds checks, in their order.  A request whose nprobe is out
    of 0 < nprobe <= 2048 raises InvalidArgumentError on that nprobe,
    whatever its K; a request whose nprobe is in bounds and whose K is
    out of 0 < K <= 2048 raises InvalidTopKError on that K.  Either way
    the handler is left as it was. *)
Theorem Search_bounds_precedence b self request :
  (~ (0 < nprobe request <= 2048) ->
   Search b self request
   = (Raised (InvalidArgumentError (nprobe request)), self)) /\
  (0 < nprobe request <= 2048 -> ~ (0 < topk request <= 2048) ->
   Search b self request
   = (Raised (InvalidTopKError (topk request)), self)).
Proof.
  split.
  - intros Hn. unfold Search, MAX_NPROBE.
    destruct (Z.gtb_spec (nprobe request) 2048); [reflexivity|].
    destruct (Z.leb_spec (nprobe request) 0); [reflexivity | lia].
  - intros Hn HK. unfold Search, MAX_NPROBE, MAX_TOPK.
    destruct (Z.gtb_spec (nprobe request) 2048); [lia|].
    destruct (Z.leb_spec (nprobe request) 0); [lia|].
    destruct (Z.gtb_spec (topk request) 2048); [reflexivity|].
    destruct (Z.leb_spec (topk request) 0); [reflexivity | lia].
Qed.

Lemma Search_bounds_precedence_witness :
  Search (Sample.backend success_status Sample.one_node
            (Sample.response [[]])) Sample.fresh (Sample.request 0 4096)
  = (Raised (InvalidArgumentError 4096), Sample.fresh).
Proof.
  apply (Search_bounds_precedence
           (Sample.backend success_status Sample.one_node
              (Sample.response [[]])) Sample.fresh (Sample.request 0 4096)).
  simpl. lia.
Defined.

Lemma Search_returned_cached b self request resp self' :
  Search b self request = (Returned resp, self') ->
  table_meta self' !! table_name request
  = Some (request_meta b self request).
Proof.
  intros Hret.
  destruct (Search_returned _ _ _ _ _ Hret) as (HK & Hn & _).
  rewrite Search_valid in Hret by assumption. unfold request_meta.
  destruct (table_meta self !! table_name request) as [meta|] eqn:Hget.
  - pose proof (do_query_table_meta b self (table_name request) meta
                  (query_record_array request) (topk request)
                  (nprobe request) (query_range_array request)) as Hm.
    destruct (_do_query _ _ _ _ _ _ _ _) as [[st results] self2].
    inversion Hret; subst. simpl in Hm. now rewrite Hm.
  - destruct (describe_table b (table_name request)) as [st0 info].
    cbv beta iota zeta in Hret.
    destruct (OK st0); cbn [negb] in Hret; cbv beta iota in Hret;
      [|discriminate].
    pose proof (do_query_table_meta b
                  (cache (table_name request) info
                     (log [describe_table_call (table_name request)] self))
                  (table_name request) info
                  (query_record_array request) (topk request)
                  (nprobe request) (query_range_array request)) as Hm.
    destruct (_do_query _ _ _ _ _ _ _ _) as [[st results] self2].
    inversion Hret; subst. simpl in Hm. rewrite Hm. simpl.
    apply lookup_insert_eq.
Qed.

Lemma sub_query_calls_not_describe K n (plan : list (string * QueryParams)) :
  forallb (fun c => negb (is_describe c))
    (map (fun '(addr, params) =>
            search_vectors_in_files_call addr params K n) plan) = true.
Proof.
  induction plan as [|[addr params] plan IH]; [reflexivity | exact IH].
Qed.

(** The descriptor is memoized: once a search on a table has returned,
    the table's descriptor is cached, and a later search on that table
    (through any state of the backends) issues no describe_table lookup
    and reads its metric from the cached descriptor. *)
Theorem Search_memoizes b self request resp self1 b' request' :
  Search b self request = (Returned resp, self1) ->
  table_name request' = table_name request ->
  table_meta self1 !! table_name request
  = Some (request_meta b self request) /\
  request_meta b' self1 request' = request_meta b self request /\
  exists new,
    calls (Search b' self1 request').2 = calls self1 ++ new /\
    forallb (fun c => negb (is_describe c)) new = true.
Proof.
  intros Hret Hname.
  pose proof (Search_returned_cached _ _ _ _ _ Hret) as Hcached.
  split; [exact Hcached|]. split.
  - unfold request_meta at 1. now rewrite Hname, Hcached.
  - destruct (Search b' self1 request') as [[resp'|e] self2] eqn:Hret'.
    + apply Search_call_trace in Hret'. rewrite Hname, Hcached in Hret'.
      eexists. split; [exact Hret'|]. simpl.
      apply sub_query_calls_not_describe.
    + apply Search_raised in Hret'
        as [(_ & _ & ->)|[(_ & _ & _ & ->)|(_ & _ & _ & Hmiss & _)]].
      * exists []. now rewrite app_nil_r.
      * exists []. now rewrite app_nil_r.
      * rewrite Hname, Hcached in Hmiss. discriminate.
Qed.

Lemma Search_memoizes_witness :
  let b := Sample.backend success_status Sample.one_node
             (Sample.response [[Sample.row 1 Sample.one]]) in
  exists self1,
    (Search b Sample.fresh (Sample.request 1 16)).2 = self1 /\
    table_meta self1 !! "t" = Some (Sample.schema L2).
Proof.
  intros b.
  destruct (Search b Sample.fresh (Sample.request 1 16))
    as [[resp|e] self1] eqn:Hret; [|vm_compute in Hret; discriminate].
  exists self1. split; [reflexivity|].
  destruct (Search_memoizes b Sample.fresh (Sample.request 1 16) resp self1
              b (Sample.request 2 8) Hret) as (Hcached & _);
    [reflexivity|].
  exact Hcached.
Defined.

(** The order in which the workers complete matters only for ties: when
    the answers are responses without NaN distances, the result of the
    search is equal, modulo the rows tied on distance, to the merge of
    the answers in plan order. *)
Theorem Search_completion_order b self request resp self' :
  Search b self request = (Returned resp, self') ->
  forallb Spec.is_response (request_answers b request) = true ->
  forallb Spec.nan_free (request_answers b request) = true ->
  Spec.tie_equal (status resp, topk_query_result resp)
    (_do_merge (request_answers b request) (topk request)
       (MetricType_eqb (metric_type (request_meta b self request)) IP)).
Proof.
  intros Hret Hresp Hfree.
  destruct (Search_returned _ _ _ _ _ Hret) as (HK & _ & Heq).
  rewrite Heq. clear Heq.
  pose proof (completion_perm b (request_answers b request)) as Hperm.
  pose proof (forallb_Permutation _ _ _ Hperm Hresp) as Hresp'.
  pose proof (forallb_Permutation _ _ _ Hperm Hfree) as Hfree'.
  set (reverse := MetricType_eqb _ IP).
  destruct (do_merge_tie_equal (topk request) reverse
              (completion b (request_answers b request))
              (request_answers b request)) as [Hst Hblocks];
    [lia | exact Hperm | exact Hresp' | exact Hfree' |].
  split; [|exact Hblocks]. cbn [fst]. rewrite <- Hst.
  rewrite do_merge_responses by exact Hresp'. reflexivity.
Qed.

Lemma Search_completion_order_witness :
  let b := Sample.backend_second_first in
  completion b (request_answers b (Sample.request 1 16))
  <> request_answers b (Sample.request 1 16) /\
  exists resp,
    (Search b Sample.fresh (Sample.request 1 16)).1 = Returned resp /\
    topk_query_result resp = [Sample.block [Sample.row 2 Sample.one]] /\
    (_do_merge (request_answers b (Sample.request 1 16)) 1 false).2
    = [Sample.block [Sample.row 1 Sample.one]] /\
    Spec.tie_equal (status resp, topk_query_result resp)
      (_do_merge (request_answers b (Sample.request 1 16)) 1 false).
Proof.
  intros b. split; [vm_compute; discriminate|].
  destruct (Search b Sample.fresh (Sample.request 1 16))
    as [[resp|e] self'] eqn:Hret; [|vm_compute in Hret; discriminate].
  exists resp. split; [reflexivity|].
  split; [vm_compute in Hret; now inversion Hret|].
  split; [vm_compute; reflexivity|].
  apply (Search_completion_order b Sample.fresh (Sample.request 1 16)
           resp self' Hret); reflexivity.
Defined.

(** [DescribeTable] neither reads nor fills the descriptor cache.  A
    request that parses is answered from the backend, with exactly one
    describe_table call, also when the table is cached, and the cache is
    left as it was; so a search that follows on a table not yet cached
    looks the table up again.  A request that fails to parse is answered
    with the parser's status and no call. *)
Theorem DescribeTable_bypasses_cache b self parsed :
  table_meta (DescribeTable b self parsed).2 = table_meta self /\
  calls (DescribeTable b self parsed).2
  = calls self
    ++ (if OK parsed.1 then [describe_table_call parsed.2] else []) /\
  (OK parsed.1 = false ->
   error_code (reply_status (DescribeTable b self parsed).1)
   = error_code parsed.1) /\
  (OK parsed.1 = true ->
   reply_status (DescribeTable b self parsed).1
   = {| error_code := error_code (describe_table b parsed.2).1;
        reason := reason (describe_table b parsed.2).1 |} /\
   reply_metric_type (DescribeTable b self parsed).1
   = if OK (describe_table b parsed.2).1
     then Some (metric_type (describe_table b parsed.2).2) else None) /\
  (forall request,
     OK parsed.1 = true -> parsed.2 = table_name request ->
     table_meta self !! table_name request = None ->
     0 < topk request <= 2048 -> 0 < nprobe request <= 2048 ->
     exists rest,
       calls (Search b (DescribeTable b self parsed).2 request).2
       = calls self
         ++ describe_table_call (table_name request)
         :: describe_table_call (table_name request) :: rest).
Proof.
  destruct parsed as [pst name]. unfold DescribeTable. cbn [fst snd].
  destruct (OK pst) eqn:Hok; cbn [negb].
  - destruct (describe_table b name) as [st info] eqn:Hdesc. cbn [fst snd].
    assert (Hself :
      (if OK st
       then ({| reply_status :=
                  {| error_code := error_code st; reason := reason st |};
                reply_table_name := name;
                reply_index_file_size := index_file_size info;
                reply_dimension := dimension info;
                reply_metric_type := Some (metric_type info) |},
             log [describe_table_call name] self)
       else ({| reply_status :=
                  {| error_code := error_code st; reason := reason st |};
                reply_table_name := name; reply_index_file_size := 0;
                reply_dimension := 0; reply_metric_type := None |},
             log [describe_table_call name] self)).2
      = log [describe_table_call name] self) by now destruct (OK st).
    rewrite Hself. repeat split.
    + discriminate.
    + now destruct (OK st).
    + now destruct (OK st).
    + intros request _ -> Hmiss HK Hn.
      destruct (Search b (log [describe_table_call (table_name request)]
                            self) request)
        as [[resp|e] self2] eqn:Hret.
      * apply Search_call_trace in Hret. cbn [table_meta log] in Hret.
        rewrite Hmiss in Hret. cbn [snd]. rewrite Hret.
        cbn [calls log]. rewrite <- !app_assoc. simpl. eauto.
      * apply Search_raised in Hret
          as [(_ & Hbad & _)|[(_ & _ & Hbad & _)|(_ & _ & _ & _ & _ & ->)]];
          [lia | lia |].
        cbn [snd calls log]. rewrite <- app_assoc. simpl. eauto.
  - repeat split.
    + now rewrite app_nil_r.
    + discriminate.
    + discriminate.
    + discriminate.
Qed.

(** An error a backend reports inside its response object is not seen:
    when every answer is response-shaped, the search returns the Success
    status, whatever statuses the responses carry. *)
Theorem Search_ignores_response_status b self request resp self' :
  Search b self request = (Returned resp, self') ->
  forallb Spec.is_response (request_answers b request) = true ->
  status resp = success_status.
Proof.
  intros Hret Hresp.
  destruct (Search_returned _ _ _ _ _ Hret) as (_ & _ & Heq).
  pose proof (completion_perm b (request_answers b request)) as Hperm.
  rewrite do_merge_responses in Heq
    by exact (forallb_Permutation _ _ _ Hperm Hresp).
  simpl in Heq. now inversion Heq.
Qed.

Lemma Search_ignores_response_status_witness :
  let b := Sample.backend success_status Sample.one_node
             (Response {| status := Sample.unavailable;
                          topk_query_result := [] |}) in
  exists resp,
    (Search b Sample.fresh (Sample.request 1 16)).1 = Returned resp /\
    status resp = success_status.
Proof.
  intros b.
  destruct (Search b Sample.fresh (Sample.request 1 16))
    as [[resp|e] self'] eqn:Hret; [|vm_compute in Hret; discriminate].
  exists resp. split; [reflexivity|].
  apply (Search_ignores_response_status b Sample.fresh (Sample.request 1 16)
           resp self' Hret). reflexivity.
Defined.
